(** * bili-sync-server: the relay's HTTP controller and the typed API builder

    A shallow embedding of [src/controller.ts] (the three Koa routes) and of
    the client-side request builder ([ApiBuilder], [validateNonEmpty],
    [simpleParam]), together with a model of the relay core ([Session],
    [Client], [SessionManager]) that the controller drives.

    Conventions.
    - A JavaScript string is a sequence of UTF-16 code units: [list N].
    - Objects of classes the controller only holds by reference are opaque
      references; every call into them is an event answered by the
      environment.
    - [throw] is a result value: [Thrown] / [Rejected]. *)

From Stdlib Require Import Floats.
From stdpp Require Import gmap strings list infinite.

Local Open Scope N_scope.

(** ** JavaScript strings, [\s], regular expressions, JSON text *)
Module Js.

Abbreviation jsstring := (list N).

(** A source-code string literal (ASCII) as code units. *)
Fixpoint lit (s : string) : jsstring :=
  match s with
  | EmptyString => []
  | String a s' => Ascii.N_of_ascii a :: lit s'
  end.

(** The class [\s]: WhiteSpace and LineTerminator code points of ECMA-262
    (TAB, LF, VT, FF, CR, SP, NBSP, U+1680, U+2000..U+200A, LS, PS, U+202F,
    U+205F, U+3000, ZWNBSP). *)
Definition is_white_space (c : N) : bool :=
  existsb (N.eqb c) [9; 10; 11; 12; 13; 32; 160; 5760; 8232; 8233; 8239; 8287; 12288; 65279]
  || ((8192 <=? c) && (c <=? 8202)).

(** The fragment of the pattern language the sources use. *)
Inductive regex : Type :=
| Bol                         (* ^ *)
| Eol                         (* $ *)
| Class (p : N -> bool)       (* \s and the like *)
| Cat (r1 r2 : regex)
| Star (r : regex).           (* greedy r* *)

(** The iterations of a greedy star whose body is matched by [body]: one
    more iteration first, the continuation [k] as the fallback.  An
    iteration that consumes nothing is rejected, so [n] bounds the
    iterations by the code units left. *)
Fixpoint iterate (body : (nat -> bool) -> nat -> bool) (k : nat -> bool) (n pos : nat)
    {struct n} : bool :=
  match n with
  | O => k pos
  | S n' => body (fun pos' => Nat.ltb pos pos' && iterate body k n' pos') pos || k pos
  end.

(** Backtracking matcher in continuation style: [backtrack r input k pos] tries [r]
    at [pos] and hands the end positions to [k], longest first. *)
Fixpoint backtrack (r : regex) (input : jsstring) (k : nat -> bool) (pos : nat) {struct r} : bool :=
  match r with
  | Bol => Nat.eqb pos 0 && k pos
  | Eol => Nat.eqb pos (length input) && k pos
  | Class p =>
      match input !! pos with
      | Some c => p c && k (S pos)
      | None => false
      end
  | Cat r1 r2 => backtrack r1 input (backtrack r2 input k) pos
  | Star r' => iterate (backtrack r' input) k (length input - pos)%nat pos
  end.

(** [RegExp.prototype.test] without the g and y flags: a match may start at
    any index, tried from 0 upwards. *)
Definition test (r : regex) (input : jsstring) : bool :=
  existsb (backtrack r input (fun _ => true)) (seq 0 (S (length input))).

(** *** JSON text ([JSON.stringify] on the values the controller builds) *)

#[warnings="-register-all"]
Inductive json : Type :=
| JString (s : jsstring)
| JObject (properties : list (jsstring * json)).

Definition hex_digit (n : N) : N := if n <? 10 then 48 + n else 87 + n.

(** UnicodeEscape: a backslash, a u, four lowercase hexadecimal digits. *)
Definition unicode_escape (c : N) : jsstring :=
  [92; 117; hex_digit (c / 4096 mod 16); hex_digit (c / 256 mod 16);
   hex_digit (c / 16 mod 16); hex_digit (c mod 16)].

Definition is_leading_surrogate (c : N) : bool := (55296 <=? c) && (c <=? 56319).
Definition is_trailing_surrogate (c : N) : bool := (56320 <=? c) && (c <=? 57343).

(** One code point that is not half of a surrogate pair. *)
Definition escape_unit (c : N) : jsstring :=
  if c =? 8 then [92; 98]                (* \b *)
  else if c =? 9 then [92; 116]          (* \t *)
  else if c =? 10 then [92; 110]         (* \n *)
  else if c =? 12 then [92; 102]         (* \f *)
  else if c =? 13 then [92; 114]         (* \r *)
  else if c =? 34 then [92; 34]          (* \ and the double quote *)
  else if c =? 92 then [92; 92]          (* \\ *)
  else if (c <? 32) || is_leading_surrogate c || is_trailing_surrogate c
       then unicode_escape c
  else [c].

Fixpoint quote_units (s : jsstring) : jsstring :=
  match s with
  | [] => []
  | c :: s' =>
      if is_leading_surrogate c then
        match s' with
        | d :: s'' =>
            if is_trailing_surrogate d then c :: d :: quote_units s''
            else unicode_escape c ++ quote_units s'
        | [] => unicode_escape c
        end
      else escape_unit c ++ quote_units s'
  end.

(** [Array.prototype.join] on strings. *)
Fixpoint join (separator : jsstring) (parts : list jsstring) : jsstring :=
  match parts with
  | [] => []
  | [p] => p
  | p :: ps => p ++ separator ++ join separator ps
  end.

(** QuoteJSONString. *)
Definition quote (s : jsstring) : jsstring := 34 :: quote_units s ++ [34].

(** [JSON.stringify] with no replacer and no indentation. *)
Fixpoint stringify (v : json) : jsstring :=
  match v with
  | JString s => quote s
  | JObject properties =>
      let fix members (ps : list (jsstring * json)) : list jsstring :=
        match ps with
        | [] => []
        | (key, value) :: ps' => (quote key ++ [58] ++ stringify value) :: members ps'
        end in
      [123] ++ join [44] (members properties) ++ [125]
  end.

(** *** Reading a JSON string back

    The reader's side ([JSON.parse] on the characters between the quotes),
    used below to state that [quote] loses nothing. *)

Definition hex_value (d : N) : option N :=
  if (48 <=? d) && (d <=? 57) then Some (d - 48)
  else if (97 <=? d) && (d <=? 102) then Some (d - 87)
  else if (65 <=? d) && (d <=? 70) then Some (d - 55)
  else None.

Definition single_escape (e : N) : option N :=
  if e =? 98 then Some 8
  else if e =? 116 then Some 9
  else if e =? 110 then Some 10
  else if e =? 102 then Some 12
  else if e =? 114 then Some 13
  else if e =? 34 then Some 34
  else if e =? 92 then Some 92
  else if e =? 47 then Some 47
  else None.

Fixpoint unquote_units (s : jsstring) : option jsstring :=
  match s with
  | [] => Some []
  | c :: rest =>
      if c =? 92 then
        match rest with
        | e :: rest' =>
            if e =? 117 then
              match rest' with
              | a :: b :: c :: d :: rest'' =>
                  match hex_value a, hex_value b, hex_value c, hex_value d with
                  | Some a, Some b, Some c, Some d =>
                      cons (4096 * a + 256 * b + 16 * c + d) <$> unquote_units rest''
                  | _, _, _, _ => None
                  end
              | _ => None
              end
            else
              match single_escape e with
              | Some x => cons x <$> unquote_units rest'
              | None => None
              end
        | [] => None
        end
      else if (c <? 32) || (c =? 34) then None
      else cons c <$> unquote_units rest
  end.

End Js.

(** ** The typed request builder (client side) *)
Module Api.
Import Js.

Inductive HTTPMethods : Type :=
| GET | HEAD | CONNECT | DELETE | OPTIONS      (* HTTPMethodsWithoutBody *)
| POST | PUT | PATCH.                          (* HTTPMethodsWithBody *)

(** The method as the string the union type spells. *)
Definition method_name (method : HTTPMethods) : jsstring :=
  match method with
  | GET => lit "GET" | HEAD => lit "HEAD" | CONNECT => lit "CONNECT"
  | DELETE => lit "DELETE" | OPTIONS => lit "OPTIONS"
  | POST => lit "POST" | PUT => lit "PUT" | PATCH => lit "PATCH"
  end.

Inductive TypeNames : Type := number_name | string_name | boolean_name | string_array_name.

(** A JavaScript number is an IEEE 754 binary64. *)
Definition number : Type := float.

Definition TypeOfName (T : TypeNames) : Type :=
  match T with
  | number_name => number
  | string_name => jsstring
  | boolean_name => bool
  | string_array_name => list jsstring
  end.

Inductive ClientErrorCode : Type := Error | InvalidParameter | NetworkFailure | ParseError.

Definition code_of (c : ClientErrorCode) : Z :=
  match c with
  | Error => -1
  | InvalidParameter => -2
  | NetworkFailure => -3
  | ParseError => -4
  end.

(** What a [throw] carries: an [APIError] with its [code] and message, or the
    engine's TypeError for a call through a reference that holds no object. *)
Inductive Exception : Type :=
| APIError (code : Z) (message : jsstring)
| TypeError.

Inductive Outcome (A : Type) : Type :=
| Returned (a : A)
| Thrown (e : Exception).
Arguments Returned {A} a.
Arguments Thrown {A} e.

Definition Validator (T : Type) : Type := jsstring -> T -> Outcome T.

Record ParamInfo : Type := {
  type : TypeNames;
  validator : Validator (TypeOfName type);
  optional : bool;
}.

Inductive SimpleParam : Type :=
| by_name (T : TypeNames)
| by_info (info : ParamInfo).

(** An object as the list of its own properties, in enumeration order. *)
Abbreviation ParamsDeclare := (list (jsstring * ParamInfo)).
Abbreviation SimpleParamsDeclare := (list (jsstring * SimpleParam)).

Definition validateByPass {T : Type} (_ : jsstring) (value : T) : Outcome T :=
  Returned value.

Definition simpleParam (info : SimpleParamsDeclare) : ParamsDeclare :=
  map (fun '(key, value) =>
         (key,
          match value with
          | by_name number_name =>
              {| type := number_name; validator := validateByPass; optional := false |}
          | by_name string_name =>
              {| type := string_name; validator := validateByPass; optional := false |}
          | by_name boolean_name =>
              {| type := boolean_name; validator := validateByPass; optional := false |}
          | by_name string_array_name =>
              {| type := string_array_name; validator := validateByPass; optional := false |}
          | by_info value => value
          end)) info.

(** The pattern [/^\s*$/]. *)
Definition blank : regex := Cat Bol (Cat (Star (Class is_white_space)) Eol).

Definition validateNonEmpty (key : jsstring) (text : jsstring) : Outcome jsstring :=
  if test blank text
  then Thrown (APIError (code_of InvalidParameter)
                 (lit "'" ++ key ++ lit "' cannot be empty"))
  else Returned text.

Inductive RedirectOption : Type := follow | error | manual.

Record ApiBuilder : Type := {
  method : HTTPMethods;
  url : jsstring;
  pathInfo : ParamsDeclare;
  queryInfo : ParamsDeclare;
  dataInfo : option ParamsDeclare;          (* None: undefined *)
  redirectOption : option RedirectOption;   (* None: not set *)
}.

(** Builders are objects: the store holds them by address, [new] appends. *)
Abbreviation Heap := (list ApiBuilder).
Definition Ref : Type := nat.
Definition M (A : Type) : Type := Heap -> Outcome A * Heap.

Definition new_ApiBuilder (method : HTTPMethods) (url : jsstring)
    (path query : ParamsDeclare) (data : option ParamsDeclare) : M Ref :=
  fun h =>
    (Returned (length h),
     h ++ [{| method := method; url := url; pathInfo := path; queryInfo := query;
              dataInfo := data; redirectOption := None |}]).

(** A method body run on the object [this] refers to. *)
Definition with_this {A : Type} (this : Ref) (f : ApiBuilder -> M A) : M A :=
  fun h =>
    match h !! this with
    | Some b => f b h
    | None => (Thrown TypeError, h)
    end.

Definition path (this : Ref) (path : SimpleParamsDeclare) : M Ref :=
  with_this this (fun b =>
    new_ApiBuilder (method b) (url b) (simpleParam path) (queryInfo b) (dataInfo b)).

Definition query (this : Ref) (query : SimpleParamsDeclare) : M Ref :=
  with_this this (fun b =>
    new_ApiBuilder (method b) (url b) (pathInfo b) (simpleParam query) (dataInfo b)).

Definition body (this : Ref) (data : SimpleParamsDeclare) : M Ref :=
  with_this this (fun b =>
    match method b with
    | POST | PATCH | PUT =>
        new_ApiBuilder (method b) (url b) (pathInfo b) (queryInfo b) (Some (simpleParam data))
    | _ =>
        fun h =>
          (Thrown (APIError (code_of Error)
                     (lit "HTTP Method " ++ method_name (method b)
                        ++ lit " should not have body.")), h)
    end).

Definition redirect (this : Ref) (redirect : RedirectOption) : M Ref :=
  with_this this (fun b h =>
    (Returned this,
     <[this := {| method := method b; url := url b; pathInfo := pathInfo b;
                  queryInfo := queryInfo b; dataInfo := dataInfo b;
                  redirectOption := Some redirect |}]> h)).

Definition api (method : HTTPMethods) (url : jsstring) : M Ref :=
  match method with
  | POST | PUT | PATCH => new_ApiBuilder method url [] [] (Some [])
  | _ => new_ApiBuilder method url [] [] None
  end.

End Api.

(** ** The HTTP controller ([controller.ts]) *)
Module Controller.
Import Js.

(** References to objects whose classes live outside the controller. *)
Variant SessionRef : Type := session_ref (address : nat).
Variant ClientRef : Type := client_ref (address : nat).
Variant WebSocket : Type := websocket (address : nat).
Variant SessionOptions : Type := session_options (address : nat).
(** The function koa-easy-ws installs as [ctx.ws] on an upgrade request. *)
Variant Upgrade : Type := upgrade (address : nat).

(** A thrown value; [NotFound] is the relay core's condition. *)
Inductive JsError : Type :=
| NotFound
| other_error (tag : N).

(** The part of the Koa context the routes read and write. *)
Record Context : Type := {
  params_sessionId : jsstring;                    (* ctx.params.sessionId *)
  params_clientId : jsstring;                     (* ctx.params.clientId *)
  ws : option Upgrade;                            (* ctx.ws; None on a plain request *)
  request_body : SessionOptions;                  (* ctx.request.body *)
  options_sessionLifetime : float;                (* ctx.options.sessionLifetime *)
  response_status : Z;                            (* ctx.response.status *)
  response_headers : list (jsstring * jsstring);
  body : option jsstring;                         (* ctx.body *)
}.

Definition set_status (status : Z) (ctx : Context) : Context :=
  {| params_sessionId := params_sessionId ctx; params_clientId := params_clientId ctx;
     ws := ws ctx; request_body := request_body ctx;
     options_sessionLifetime := options_sessionLifetime ctx;
     response_status := status;
     response_headers := response_headers ctx; body := body ctx |}.

(** [ctx.set(field, value)]: the header replaces one of the same name. *)
Definition set (field value : jsstring) (ctx : Context) : Context :=
  {| params_sessionId := params_sessionId ctx; params_clientId := params_clientId ctx;
     ws := ws ctx; request_body := request_body ctx;
     options_sessionLifetime := options_sessionLifetime ctx;
     response_status := response_status ctx;
     response_headers :=
       (field, value) :: filter (fun h => h.1 <> field) (response_headers ctx);
     body := body ctx |}.

Definition set_body (text : jsstring) (ctx : Context) : Context :=
  {| params_sessionId := params_sessionId ctx; params_clientId := params_clientId ctx;
     ws := ws ctx; request_body := request_body ctx;
     options_sessionLifetime := options_sessionLifetime ctx;
     response_status := response_status ctx;
     response_headers := response_headers ctx; body := Some text |}.

(** Every call the routes make into code outside this file, with the type
    of what it gives back. *)
Inductive Call : Type -> Type :=
| SessionManager_get (sessionId : jsstring) : Call (option SessionRef)
| SessionManager_new (options : SessionOptions) (lifetime : float) : Call SessionRef
| Session_id (session : SessionRef) : Call jsstring
| Session_join (session : SessionRef) (client : ClientRef) : Call unit
| Session_reconnect (session : SessionRef) (clientId : jsstring) (ws : WebSocket) : Call unit
| new_Client : Call ClientRef
| Client_bind (client : ClientRef) (ws : WebSocket) : Call unit
| Client_id (client : ClientRef) : Call jsstring
| ctx_ws (f : Upgrade) : Call WebSocket
| log_info (message : jsstring) : Call unit.

(** A route body: straight-line code over those calls. *)
Inductive Prog (R : Type) : Type :=
| Ret (r : R)
| Vis {X : Type} (c : Call X) (k : X -> Prog R).
Arguments Ret {R} r.
Arguments Vis {R X} c k.

Fixpoint bind {A B : Type} (p : Prog A) (f : A -> Prog B) : Prog B :=
  match p with
  | Ret a => f a
  | Vis c k => Vis c (fun x => bind (k x) f)
  end.

Definition call {X : Type} (c : Call X) : Prog X := Vis c Ret.

#[global] Instance prog_bind : MBind Prog := fun A B f p => bind p f.
#[global] Instance prog_ret : MRet Prog := fun A r => Ret r.

(** [router.all("/session/:sessionId", ...)] *)
Definition all_session_sessionId (ctx : Context) : Prog Context :=
  let sessionId := params_sessionId ctx in
  session ← call (SessionManager_get sessionId);
  match session with
  | None => Ret (set_status 404 ctx)
  | Some session =>
      match ws ctx with
      | Some ctx_ws' =>
          ws ← call (ctx_ws ctx_ws');
          client ← call new_Client;
          call (Client_bind client ws);;
          call (Session_join session client);;
          client_id ← call (Client_id client);
          call (log_info (lit "New client " ++ client_id ++ lit " join to " ++ sessionId));;
          Ret ctx
      | None => Ret (set_status 400 ctx)
      end
  end.

(** [router.all("/session/:sessionId/:clientId", ...)] *)
Definition all_session_sessionId_clientId (ctx : Context) : Prog Context :=
  let sessionId := params_sessionId ctx in
  session ← call (SessionManager_get sessionId);
  match session with
  | None => Ret (set_status 404 ctx)
  | Some session =>
      match ws ctx with
      | Some ctx_ws' =>
          ws ← call (ctx_ws ctx_ws');
          call (Session_reconnect session (params_clientId ctx) ws);;
          call (log_info (lit "Client " ++ params_clientId ctx ++ lit " reconnect to "
                            ++ sessionId));;
          Ret ctx
      | None => Ret (set_status 400 ctx)
      end
  end.

(** [router.post("/session", jsonBody, ...)], after [jsonBody] has parsed the
    request body. *)
Definition post_session (ctx : Context) : Prog Context :=
  let options := request_body ctx in
  session ← call (SessionManager_new options (options_sessionLifetime ctx));
  let ctx := set (lit "Content-Type") (lit "application/json") ctx in
  session_id ← call (Session_id session);
  Ret (set_body (stringify (JObject [(lit "sessionId", JString session_id)])) ctx).

(** *** Running a route against an environment *)

Inductive Answer (X : Type) : Type :=
| Returns (x : X)
| Throws (e : JsError).
Arguments Returns {X} x.
Arguments Throws {X} e.

(** The environment answers every call and keeps a state [W] of its own
    (registry, sockets, clock: whatever the outside world is). *)
Definition Environment (W : Type) : Type := forall X : Type, Call X -> W -> Answer X * W.

Inductive Event : Type :=
| event {X : Type} (c : Call X) (a : Answer X).

(** How the promise of an [async] route settles. *)
Inductive Completion (R : Type) : Type :=
| Fulfilled (r : R)
| Rejected (e : JsError).
Arguments Fulfilled {R} r.
Arguments Rejected {R} e.

Record Run (W R : Type) : Type := {
  trace : list Event;
  completion : Completion R;
  world : W;
}.
Arguments trace {W R} _.
Arguments completion {W R} _.
Arguments world {W R} _.

(** No route catches: a call that throws rejects the route there. *)
Fixpoint run {W R : Type} (env : Environment W) (p : Prog R) (w : W) : Run W R :=
  match p with
  | Ret r => {| trace := []; completion := Fulfilled r; world := w |}
  | Vis c k =>
      let (a, w') := env _ c w in
      match a with
      | Returns x =>
          let r := run env (k x) w' in
          {| trace := event c a :: trace r; completion := completion r; world := world r |}
      | Throws e =>
          {| trace := [event c a]; completion := Rejected e; world := w' |}
      end
  end.

(** The calls that enter the relay core's membership operations. *)
Definition enters_core (e : Event) : bool :=
  match e with
  | event c _ =>
      match c with
      | Session_join _ _ | Session_reconnect _ _ _ => true
      | _ => false
      end
  end.


(** The arguments of a call to [Session.join]. *)
Definition join_call (e : Event) : option (SessionRef * ClientRef) :=
  match e with
  | event c _ =>
      match c with
      | Session_join session client => Some (session, client)
      | _ => None
      end
  end.

(** A run that answered with [status] and never entered the core. *)
Definition quiet {W : Type} (status : Z) (r : Run W Context) : Prop :=
  (exists ctx', completion r = Fulfilled ctx' /\ response_status ctx' = status)
  /\ Forall (fun e => enters_core e = false) (trace r).

End Controller.

(** ** The relay core: Client, Session, SessionManager

    The controller imports [./session], [./client] and [./session-manager];
    their text is not part of the embedded sources, so this module follows
    the specification's sections 3, 4 and 8.  Time is a logical clock: a
    timer fires exactly at its deadline, so the registry never holds a
    session whose deadline has passed. *)
Module Relay.
Import Js.

(** Modelled from the spec: identity generation (the generator itself is
    missing).  A token is drawn from some entropy, and one colliding with an
    identity in use is retried internally, so the token handed out is never
    one of [used]. *)
Class TokenSource : Type := {
  token : N -> list jsstring -> jsstring;
  token_fresh : forall (entropy : N) (used : list jsstring), token entropy used ∉ used;
}.

(** Modelled from the spec: a Connection, the handle of one bidirectional
    transport stream (the transport is missing). *)
Definition Connection : Type := nat.

(** Modelled from the spec: what the core does to connections, in order. *)
Inductive Effect : Type :=
| closes (connection : Connection)
| binds (connection : Connection)
| sends (connection : Connection) (payload : jsstring).

(** Modelled from the spec: Client of [client.ts] (section 3), an identity
    assigned on join and zero or one live Connection. *)
Record Client : Type := {
  client_id : option jsstring;
  connection : option Connection;
}.

(** Modelled from the spec: a Client as constructed, before any bind or join. *)
Definition new_Client : Client := {| client_id := None; connection := None |}.

(** Modelled from the spec: [Client.bind(connection)] of [client.ts]
    (section 4.3): a connection already bound is closed first. *)
Definition bind (conn : Connection) (c : Client) : Client * list Effect :=
  ({| client_id := client_id c; connection := Some conn |},
   match connection c with
   | Some old => [closes old; binds conn]
   | None => [binds conn]
   end).

(** Modelled from the spec: Session of [session.ts] (section 3); the member
    mapping keeps join order, the grace timer is its deadline when running. *)
Record Session : Type := {
  id : jsstring;
  created : Z;
  lifetime : Z;
  options : Controller.SessionOptions;
  members : list (jsstring * Client);
  grace_deadline : option Z;
}.

(** Modelled from the spec: a Session as [SessionManager.new] constructs it. *)
Definition new_Session (id : jsstring) (options : Controller.SessionOptions)
    (created lifetime : Z) : Session :=
  {| id := id; created := created; lifetime := lifetime; options := options;
     members := []; grace_deadline := None |}.

(** Modelled from the spec: a Session with its member mapping and grace
    timer replaced; identity, creation time, lifetime and options stay. *)
Definition with_members (ms : list (jsstring * Client)) (grace : option Z) (s : Session)
    : Session :=
  {| id := id s; created := created s; lifetime := lifetime s; options := options s;
     members := ms; grace_deadline := grace |}.

(** Modelled from the spec: lookup in the member mapping. *)
Fixpoint member (clientId : jsstring) (ms : list (jsstring * Client)) : option Client :=
  match ms with
  | [] => None
  | (i, c) :: ms' => if decide (i = clientId) then Some c else member clientId ms'
  end.

(** Modelled from the spec: replacing the Client stored under an identity. *)
Fixpoint set_member (clientId : jsstring) (c : Client) (ms : list (jsstring * Client))
    : list (jsstring * Client) :=
  match ms with
  | [] => []
  | (i, c0) :: ms' =>
      if decide (i = clientId) then (i, c) :: ms' else (i, c0) :: set_member clientId c ms'
  end.

(** Modelled from the spec: some member holds a live Connection. *)
Definition any_live (ms : list (jsstring * Client)) : bool :=
  existsb (fun m => bool_decide (is_Some (connection m.2))) ms.

(** Modelled from the spec: [Session.join(client)] of [session.ts]
    (section 4.2): a fresh identity unique within the Session, registered
    in the member mapping.  The identity assigned is handed back for the
    caller to read. *)
Definition join `{TokenSource} (entropy : N) (c : Client) (s : Session)
    : Session * jsstring :=
  let i := token entropy (members s).*1 in
  (with_members (members s ++ [(i, {| client_id := Some i; connection := connection c |})])
     (grace_deadline s) s,
   i).

(** Modelled from the spec: how [reconnect] ends (section 7: NotFound). *)
Inductive Signal : Type := Done | NotFound.

(** Modelled from the spec: [Session.reconnect(clientId, connection)] of
    [session.ts] (section 4.2):
    NotFound for an identity absent from the member mapping; otherwise the
    existing Client is rebound and a running grace timer is stopped. *)
Definition reconnect (clientId : jsstring) (conn : Connection) (s : Session)
    : Session * list Effect * Signal :=
  match member clientId (members s) with
  | None => (s, [], NotFound)
  | Some c =>
      let (c', effects) := bind conn c in
      (with_members (set_member clientId c' (members s)) None s, effects, Done)
  end.

(** Modelled from the spec: the transport-closed notification (section 4.3)
    and emptiness handling (section 4.2).  The notification of a connection
    that is no longer the bound one is stale and ignored. *)
Definition transport_closed (now grace : Z) (clientId : jsstring) (conn : Connection)
    (s : Session) : Session :=
  match member clientId (members s) with
  | Some c =>
      if decide (connection c = Some conn) then
        let ms := set_member clientId {| client_id := client_id c; connection := None |}
                    (members s) in
        with_members ms
          (if any_live ms then grace_deadline s
           else match grace_deadline s with
                | Some d => Some d
                | None => Some (now + grace)%Z
                end) s
      else s
  | None => s
  end.

(** Modelled from the spec: relay (section 4.2): the payload goes verbatim to
    every other member that holds a live Connection. *)
Definition relay (sender : jsstring) (payload : jsstring) (s : Session) : list Effect :=
  omap (fun m => if decide (m.1 = sender) then None
                 else (fun conn => sends conn payload) <$> connection m.2)
       (members s).

(** Modelled from the spec: expiry (section 4.2) closes every member's
    Connection. *)
Definition expire (s : Session) : list Effect :=
  omap (fun m => closes <$> connection m.2) (members s).

(** Modelled from the spec: the operations a Session receives. *)
Inductive SessionOp : Type :=
| do_join (entropy : N) (c : Client)
| do_reconnect (clientId : jsstring) (conn : Connection)
| on_closed (clientId : jsstring) (conn : Connection)
| on_message (sender : jsstring) (payload : jsstring).

(** Modelled from the spec: what an operation hands back. *)
Inductive Reply : Type :=
| joined (clientId : jsstring)
| signal (r : Signal)
| nothing.

(** Modelled from the spec: one operation on a Session at time [now]. *)
Definition session_step `{TokenSource} (grace now : Z) (op : SessionOp) (s : Session)
    : Session * list Effect * Reply :=
  match op with
  | do_join entropy c => let (s', i) := join entropy c s in (s', [], joined i)
  | do_reconnect clientId conn =>
      let '(s', effects, r) := reconnect clientId conn s in (s', effects, signal r)
  | on_closed clientId conn => (transport_closed now grace clientId conn s, [], nothing)
  | on_message sender payload => (s, relay sender payload s, nothing)
  end.

Definition is_join (op : SessionOp) : bool :=
  match op with
  | do_join _ _ => true
  | _ => false
  end.

(** The identities a history of replies issued. *)
Definition issued_by (replies : list Reply) : list jsstring :=
  omap (fun r => match r with joined i => Some i | _ => None end) replies.

(** Modelled from the spec: a history of timed operations on a Session. *)
Fixpoint session_run `{TokenSource} (grace : Z) (history : list (Z * SessionOp))
    (s : Session) : Session * list Effect * list Reply :=
  match history with
  | [] => (s, [], [])
  | (now, op) :: history' =>
      let '(s1, e1, r) := session_step grace now op s in
      let '(s2, e2, rs) := session_run grace history' s1 in
      (s2, e1 ++ e2, r :: rs)
  end.

(** Modelled from the spec: SessionManager of [session-manager.ts]
    (section 4.1): the registry, the
    identities ever issued, the clock, the configured grace period, and the
    effects on connections so far. *)
Record Manager : Type := {
  now : Z;
  grace : Z;
  registry : gmap jsstring Session;
  issued : list jsstring;
  effects : list Effect;
}.

(** Modelled from the spec: the manager at process start. *)
Definition initial (grace : Z) : Manager :=
  {| now := 0; grace := grace; registry := ∅; issued := []; effects := [] |}.

(** Modelled from the spec: [SessionManager.get(sessionId)]. *)
Definition get (sessionId : jsstring) (w : Manager) : option Session :=
  registry w !! sessionId.

(** Modelled from the spec: [SessionManager.remove(sessionId)], idempotent. *)
Definition remove (sessionId : jsstring) (w : Manager) : Manager :=
  {| now := now w; grace := grace w; registry := delete sessionId (registry w);
     issued := issued w; effects := effects w |}.

(** Modelled from the spec: [SessionManager.new(options, lifetime)]: a fresh identity never
    issued before, the Session registered, its expiry set at creation time
    plus lifetime. *)
Definition new `{TokenSource} (entropy : N) (options : Controller.SessionOptions)
    (lifetime : Z) (w : Manager) : Manager * Session :=
  let i := token entropy (issued w) in
  let s := new_Session i options (now w) lifetime in
  ({| now := now w; grace := grace w; registry := <[i := s]> (registry w);
      issued := i :: issued w; effects := effects w |}, s).

(** Modelled from the spec: a Session is due for destruction once its TTL
    timer or its running grace timer has reached its deadline. *)
Definition due (t : Z) (s : Session) : bool :=
  (created s + lifetime s <=? t)%Z
  || match grace_deadline s with
     | Some d => (d <=? t)%Z
     | None => false
     end.

(** Modelled from the spec: the timers that are due fire: each such Session
    closes its members' connections and is removed from the registry. *)
Definition settle (w : Manager) : Manager :=
  {| now := now w; grace := grace w;
     registry := filter (fun kv => due (now w) kv.2 = false) (registry w);
     issued := issued w;
     effects := effects w
       ++ concat ((fun kv => expire kv.2)
                    <$> filter (fun kv => due (now w) kv.2 = true)
                          (map_to_list (registry w))) |}.

(** Modelled from the spec: what reaches the core. *)
Inductive Op : Type :=
| op_new (entropy : N) (options : Controller.SessionOptions) (lifetime : Z)
| op_session (sessionId : jsstring) (op : SessionOp)
| op_tick (elapsed : N).

(** Modelled from the spec: the effect of one operation on the manager; an
    operation on a Session that is not registered finds nothing to act on. *)
Definition apply `{TokenSource} (op : Op) (w : Manager) : Manager :=
  match op with
  | op_new entropy options lifetime => (new entropy options lifetime w).1
  | op_session sessionId op =>
      match get sessionId w with
      | None => w
      | Some s =>
          let '(s', e, _) := session_step (grace w) (now w) op s in
          {| now := now w; grace := grace w; registry := <[sessionId := s']> (registry w);
             issued := issued w; effects := effects w ++ e |}
      end
  | op_tick elapsed =>
      {| now := now w + Z.of_N elapsed; grace := grace w; registry := registry w;
         issued := issued w; effects := effects w |}
  end.

(** Modelled from the spec: one operation, then the timers that are due. *)
Definition step `{TokenSource} (op : Op) (w : Manager) : Manager := settle (apply op w).

(** Modelled from the spec: a history of operations. *)
Definition steps `{TokenSource} (ops : list Op) (w : Manager) : Manager :=
  foldl (fun w op => step op w) w ops.

(** What the manager keeps about an identity once issued: it stays issued,
    and any Session registered under it has the deadline [deadline]. *)
Definition tracked (sessionId : jsstring) (deadline : Z) (w : Manager) : Prop :=
  sessionId ∈ issued w
  /\ forall s, registry w !! sessionId = Some s -> (created s + lifetime s)%Z = deadline.

(** Modelled from the spec: a generator that satisfies the contract, for
    running the model: the first token not in use, whatever the entropy. *)
Definition first_unused : TokenSource :=
  {| token := fun _ used => fresh used; token_fresh := fun _ used => infinite_is_fresh used |}.

End Relay.

(** ** Concrete inputs, for running the definitions above *)
Module Samples.
Import Js.

(** A GET builder at address 0 and a POST builder at address 1. *)
Definition builders : Api.Heap :=
  [ {| Api.method := Api.GET; Api.url := lit "/session/{id}"; Api.pathInfo := [];
       Api.queryInfo := []; Api.dataInfo := None; Api.redirectOption := None |};
    {| Api.method := Api.POST; Api.url := lit "/session"; Api.pathInfo := [];
       Api.queryInfo := []; Api.dataInfo := Some []; Api.redirectOption := Some Api.follow |} ].

Definition declared_body : list (jsstring * Api.SimpleParam) :=
  [ (lit "name", Api.by_name Api.string_name);
    (lit "title",
     Api.by_info {| Api.type := Api.string_name; Api.validator := Api.validateNonEmpty;
                    Api.optional := true |}) ].

(** An outside world with one session, "room", one member, "alice"; its
    state counts the calls and numbers the objects it hands out. *)
Definition outside : Controller.Environment nat :=
  fun X c n =>
    (match c in Controller.Call X return Controller.Answer X with
     | Controller.SessionManager_get sessionId =>
         Controller.Returns
           (if decide (sessionId = lit "room") then Some (Controller.session_ref 1) else None)
     | Controller.SessionManager_new _ _ => Controller.Returns (Controller.session_ref (S n))
     | Controller.Session_id _ => Controller.Returns (lit "room")
     | Controller.Session_join _ _ => Controller.Returns ()
     | Controller.Session_reconnect _ clientId _ =>
         if decide (clientId = lit "alice") then Controller.Returns ()
         else Controller.Throws Controller.NotFound
     | Controller.new_Client => Controller.Returns (Controller.client_ref n)
     | Controller.Client_bind _ _ => Controller.Returns ()
     | Controller.Client_id _ => Controller.Returns (lit "alice")
     | Controller.ctx_ws _ => Controller.Returns (Controller.websocket n)
     | Controller.log_info _ => Controller.Returns ()
     end, S n).

Definition request (sessionId clientId : string) (upgrade : bool) : Controller.Context :=
  {| Controller.params_sessionId := lit sessionId;
     Controller.params_clientId := lit clientId;
     Controller.ws := if upgrade then Some (Controller.upgrade 0) else None;
     Controller.request_body := Controller.session_options 0;
     Controller.options_sessionLifetime := 3600%float;
     Controller.response_status := 404;
     Controller.response_headers := [];
     Controller.body := None |}.

(** Two clients join a fresh session over connections 4 and 5, the first
    sends "ping", and the second loses its connection. *)
Definition two_members : list (Z * Relay.SessionOp) :=
  [ (1%Z, Relay.do_join 11 (Relay.bind 4%nat Relay.new_Client).1);
    (2%Z, Relay.do_join 12 (Relay.bind 5%nat Relay.new_Client).1);
    (3%Z, Relay.on_message (@Relay.token Relay.first_unused 11 []) (lit "ping"));
    (4%Z, Relay.on_closed (@Relay.token Relay.first_unused 12
                             [@Relay.token Relay.first_unused 11 []]) 5%nat) ].

(** A session with a lifetime of 60 is created at time 0 and joined; the
    clock then advances by 59, and by 1 more. *)
Definition room : jsstring := @Relay.token Relay.first_unused 7 [].

Definition busy_minute : list Relay.Op :=
  [ Relay.op_session room (Relay.do_join 11 (Relay.bind 4%nat Relay.new_Client).1);
    Relay.op_tick 59 ].

End Samples.

(** ** Sending a request ([ApiBuilder.send], [parseBody], [response]) *)
Module Request.
Import Js Api.

(** *** Values, objects and the built-ins [send] calls *)

(** A runtime value of one of the four declared types. *)
Inductive Value : Type :=
| VNumber (x : number)
| VString (s : jsstring)
| VBoolean (b : bool)
| VStrings (ss : list jsstring).

(** A plain object as its own properties in enumeration order ([for ... in]),
    under distinct keys. *)
Abbreviation Object := (list (jsstring * Value)).

(** The own property [key] of [o]. *)
Fixpoint get_property (key : jsstring) (o : Object) : option Value :=
  match o with
  | [] => None
  | (k, v) :: o' => if decide (k = key) then Some v else get_property key o'
  end.

(** The names of the members every plain object inherits from
    [Object.prototype]; none of them is enumerable. *)
Definition object_prototype_keys : list jsstring :=
  lit <$> [ "constructor"; "__defineGetter__"; "__defineSetter__"; "hasOwnProperty";
            "__lookupGetter__"; "__lookupSetter__"; "isPrototypeOf";
            "propertyIsEnumerable"; "toString"; "valueOf"; "__proto__";
            "toLocaleString" ]%string.

(** What [o[key]] reads: the own property of that name; failing that, the
    member of that name [o] inherits (a function, or the prototype itself
    for [__proto__]: never [undefined], and a value of none of the four
    declared types); failing that, [undefined]. *)
Inductive Read : Type :=
| undefined
| own (v : Value)
| inherited.

(** [o[key]] *)
Definition read (key : jsstring) (o : Object) : Read :=
  match get_property key o with
  | Some v => own v
  | None => if bool_decide (key ∈ object_prototype_keys) then inherited else undefined
  end.

(** [o[key] = v]: an existing property keeps its place, a new one goes last. *)
Fixpoint set_property (key : jsstring) (v : Value) (o : Object) : Object :=
  match o with
  | [] => [(key, v)]
  | (k, v0) :: o' =>
      if decide (k = key) then (k, v) :: o' else (k, v0) :: set_property key v o'
  end.

(** What the engine provides and this development does not compute: the
    decimal text of a number ([Number.prototype.toString]). *)
Record Platform : Type := {
  number_toString : number -> jsstring;
}.

(** [value.toString()] *)
Definition toString (platform : Platform) (value : Value) : jsstring :=
  match value with
  | VNumber x => number_toString platform x
  | VString s => s
  | VBoolean true => lit "true"
  | VBoolean false => lit "false"
  | VStrings ss => join [44] ss
  end.

(** [JSON.stringify] on a value: a number that is not finite is [null]. *)
Definition stringify_value (platform : Platform) (value : Value) : jsstring :=
  match value with
  | VNumber x => if PrimFloat.is_finite x then number_toString platform x else lit "null"
  | VString s => quote s
  | VBoolean true => lit "true"
  | VBoolean false => lit "false"
  | VStrings ss => [91] ++ join [44] (quote <$> ss) ++ [93]
  end.

(** [JSON.stringify] on a plain object of such values. *)
Definition stringify_object (platform : Platform) (o : Object) : jsstring :=
  [123] ++ join [44] ((fun p => quote p.1 ++ [58] ++ stringify_value platform p.2) <$> o)
  ++ [125].

(** The first occurrence of [needle]: what stands before it and after it. *)
Fixpoint strip_prefix (p s : jsstring) : option jsstring :=
  match p, s with
  | [], _ => Some s
  | _ :: _, [] => None
  | a :: p', b :: s' => if a =? b then strip_prefix p' s' else None
  end.

Fixpoint find (needle s : jsstring) : option (jsstring * jsstring) :=
  match strip_prefix needle s with
  | Some rest => Some ([], rest)
  | None =>
      match s with
      | [] => None
      | c :: s' =>
          match find needle s' with
          | Some (before, rest) => Some (c :: before, rest)
          | None => None
          end
      end
  end.

(** GetSubstitution for a string pattern (no captures): [$$] is a dollar
    sign, [$&] the matched text, [$`] what stands before the match, [$']
    what stands after it; any other dollar sign stands for itself. *)
Fixpoint get_substitution (matched before rest template : jsstring) : jsstring :=
  match template with
  | [] => []
  | c :: t =>
      if c =? 36 then
        match t with
        | d :: t' =>
            if d =? 36 then 36 :: get_substitution matched before rest t'
            else if d =? 38 then matched ++ get_substitution matched before rest t'
            else if d =? 96 then before ++ get_substitution matched before rest t'
            else if d =? 39 then rest ++ get_substitution matched before rest t'
            else 36 :: get_substitution matched before rest t
        | [] => [36]
        end
      else c :: get_substitution matched before rest t
  end.

(** [s.replace(pattern, replacement)] with a string pattern: the first
    occurrence only. *)
Definition replace (pattern replacement s : jsstring) : jsstring :=
  match find pattern s with
  | Some (before, rest) =>
      before ++ get_substitution pattern before rest replacement ++ rest
  | None => s
  end.

(** The characters [encodeURIComponent] leaves alone: letters, digits and
    [-_.!~*'()]. *)
Definition is_unreserved (c : N) : bool :=
  ((65 <=? c) && (c <=? 90)) || ((97 <=? c) && (c <=? 122)) || ((48 <=? c) && (c <=? 57))
  || existsb (N.eqb c) [45; 95; 46; 33; 126; 42; 39; 40; 41].

Definition hex_upper (n : N) : N := if n <? 10 then 48 + n else 55 + n.

Definition percent (octet : N) : jsstring := [37; hex_upper (octet / 16); hex_upper (octet mod 16)].

(** The UTF-8 octets of a code point. *)
Definition utf8 (cp : N) : list N :=
  if cp <? 128 then [cp]
  else if cp <? 2048 then [192 + cp / 64; 128 + cp mod 64]
  else if cp <? 65536 then [224 + cp / 4096; 128 + cp / 64 mod 64; 128 + cp mod 64]
  else [240 + cp / 262144; 128 + cp / 4096 mod 64; 128 + cp / 64 mod 64; 128 + cp mod 64].

(** [encodeURIComponent]; [None] is the URIError for a lone surrogate. *)
Fixpoint encodeURIComponent (s : jsstring) : option jsstring :=
  match s with
  | [] => Some []
  | c :: s' =>
      if is_unreserved c then cons c <$> encodeURIComponent s'
      else if is_trailing_surrogate c then None
      else if is_leading_surrogate c then
        match s' with
        | d :: s'' =>
            if is_trailing_surrogate d
            then app (mjoin (percent <$> utf8 ((c - 55296) * 1024 + (d - 56320) + 65536)))
                   <$> encodeURIComponent s''
            else None
        | [] => None
        end
      else app (mjoin (percent <$> utf8 c)) <$> encodeURIComponent s'
  end.

(** [n.toString(16)] on an integer. *)
Fixpoint hex_digits (fuel : nat) (n : N) : jsstring :=
  match fuel with
  | O => []
  | S fuel' =>
      if n <? 16 then [hex_digit n]
      else hex_digits fuel' (n / 16) ++ [hex_digit (n mod 16)]
  end.

Definition toString16 (z : Z) : jsstring :=
  let digits (n : N) := hex_digits (S (N.to_nat (N.log2 n))) n in
  if (z <? 0)%Z then 45 :: digits (Z.to_N (- z)) else digits (Z.to_N z).

(** *** The three loops of [send] *)

(** What [send] can throw before it fetches: an exception of this file's
    own, or the URIError of [encodeURIComponent]. *)
Inductive Failure : Type :=
| failed (e : Exception)
| URIError.

(** [info.validator(key, value)].  The validator of a declaration is typed
    by the declared type name; [None] stands for a value of another type,
    which the signature of the API function ([ValueType]) rules out.  The
    loops below give [None] as well when what they read under a declared
    key is an inherited member: the source hands that function to the
    validator, which is typed for no such value. *)
Definition call_validator (info : ParamInfo) (key : jsstring) (value : Value)
    : option (Outcome Value) :=
  let lift {A : Type} (wrap : A -> Value) (r : Outcome A) : Outcome Value :=
    match r with
    | Returned a => Returned (wrap a)
    | Thrown e => Thrown e
    end in
  match info with
  | {| type := T; validator := validate |} =>
      match T return Validator (TypeOfName T) -> option (Outcome Value) with
      | number_name => fun validate =>
          match value with VNumber x => Some (lift VNumber (validate key x)) | _ => None end
      | string_name => fun validate =>
          match value with VString s => Some (lift VString (validate key s)) | _ => None end
      | boolean_name => fun validate =>
          match value with VBoolean b => Some (lift VBoolean (validate key b)) | _ => None end
      | string_array_name => fun validate =>
          match value with VStrings ss => Some (lift VStrings (validate key ss)) | _ => None end
      end validate
  end.

(** The placeholder [{key}]. *)
Definition placeholder (key : jsstring) : jsstring := [123] ++ key ++ [125].

(** [for (const key in this.pathInfo)]: the url after the keys so far. *)
Fixpoint path_loop (platform : Platform) (pathInfo : ParamsDeclare) (params : Object)
    (url : jsstring) : option (Failure + jsstring) :=
  match pathInfo with
  | [] => Some (inr url)
  | (key, info) :: pathInfo' =>
      match read key params with
      | undefined =>
          if optional info
          then path_loop platform pathInfo' params (replace (placeholder key) [] url)
          else Some (inl (failed (APIError (code_of InvalidParameter)
                                    (lit "Missing path '" ++ key ++ lit "'"))))
      | inherited => None
      | own value =>
          match call_validator info key value with
          | None => None
          | Some (Thrown e) => Some (inl (failed e))
          | Some (Returned v) =>
              path_loop platform pathInfo' params
                (replace (placeholder key) (toString platform v) url)
          end
      end
  end.

(** [for (const key in this.queryInfo)]: [queryParams] after the keys so far. *)
Fixpoint query_loop (platform : Platform) (queryInfo : ParamsDeclare) (params : Object)
    (queryParams : list jsstring) : option (Failure + list jsstring) :=
  match queryInfo with
  | [] => Some (inr queryParams)
  | (key, info) :: queryInfo' =>
      match read key params with
      | undefined =>
          if optional info
          then query_loop platform queryInfo' params queryParams
          else Some (inl (failed (APIError (code_of InvalidParameter)
                                    (lit "Missing query param '" ++ key ++ lit "'"))))
      | inherited => None
      | own value =>
          match call_validator info key value with
          | None => None
          | Some (Thrown e) => Some (inl (failed e))
          | Some (Returned v) =>
              match encodeURIComponent (toString platform v) with
              | None => Some (inl URIError)
              | Some encoded =>
                  query_loop platform queryInfo' params
                    (queryParams ++ [key ++ [61] ++ encoded])
              end
          end
      end
  end.

(** [for (const key in this.dataInfo)]: the caller's [data] object is
    written in place, so it is handed back as the loop leaves it, also
    when the loop throws.  [data] itself may be [undefined] ([None]):
    reading a property of it is the engine's TypeError. *)
Fixpoint data_loop (dataInfo : ParamsDeclare) (data : option Object)
    : option (option Object * option Failure) :=
  match dataInfo with
  | [] => Some (data, None)
  | (key, info) :: dataInfo' =>
      match data with
      | None => Some (data, Some (failed TypeError))
      | Some o =>
          match read key o with
          | undefined =>
              if optional info
              then data_loop dataInfo' data
              else Some (data,
                         Some (failed (APIError (code_of InvalidParameter)
                                         (lit "Missing field '" ++ key
                                            ++ lit " in request body'"))))
          | inherited => None
          | own value =>
              match call_validator info key value with
              | None => None
              | Some (Thrown e) => Some (data, Some (failed e))
              | Some (Returned v) => data_loop dataInfo' (Some (set_property key v o))
              end
          end
      end
  end.

(** *** The exchange with the server *)

(** The second argument of [fetch]. *)
Record RequestInit : Type := {
  init_method : HTTPMethods;
  init_headers : list (jsstring * jsstring);
  init_redirect : option RedirectOption;
  init_body : option jsstring;
}.

(** A [globalThis.Response]: its status and a reference to its body. *)
Record HttpResponse : Type := {
  status : Z;
  body_ref : nat;
}.

(** What a rejected promise carries. *)
Variant Reason : Type := reason (tag : nat).

(** What [response.json()] gave for an answer of status 400 or above, seen
    through the cast to the interface [ErrorResponse].  The cast checks
    nothing: [code] is [None] when the body has no number there to read
    (the body is [null], or its [code] is missing or [null]), and [msg] is
    [None] when the body has no [msg].  A [code] that is there is taken to
    be an integer and a [msg] that is there a string, as the interface
    declares them; [status] and [timestamp] are never read. *)
Record ErrorResponse : Type := {
  code : option Z;
  msg : option jsstring;
}.

(** The promises [send] awaits; [R] is the type argument [Response].
    [response.json()] is typed by the cast [parseBody] puts on it. *)
Inductive NetCall (R : Type) : Type -> Type :=
| fetch (url : jsstring) (init : RequestInit) : NetCall R HttpResponse
| json_as_error (response : HttpResponse) : NetCall R ErrorResponse
| json_as_response (response : HttpResponse) : NetCall R R.
Arguments fetch {R} url init.
Arguments json_as_error {R} response.
Arguments json_as_response {R} response.

Inductive Settled (X : Type) : Type :=
| fulfilled (x : X)
| rejected (err : Reason).
Arguments fulfilled {X} x.
Arguments rejected {X} err.

Inductive LogLine : Type :=
| console_error (err : Reason)
| console_warn (message : jsstring).

(** An [async] body: it returns, throws, writes to the console, or awaits a
    promise and goes on with how the promise settled. *)
Inductive Task (R A : Type) : Type :=
| Return (a : A)
| Throw (f : Failure)
| Log (line : LogLine) (k : Task R A)
| Await {X : Type} (c : NetCall R X) (k : Settled X -> Task R A).
Arguments Return {R A} a.
Arguments Throw {R A} f.
Arguments Log {R A} line k.
Arguments Await {R A X} c k.

Fixpoint and_then {R A B : Type} (t : Task R A) (f : A -> Task R B) : Task R B :=
  match t with
  | Return a => f a
  | Throw e => Throw e
  | Log line k => Log line (and_then k f)
  | Await c k => Await c (fun s => and_then (k s) f)
  end.

(** [parseBody<T>(response)], for the call [json] that carries the cast. *)
Definition parseBody {R T : Type} (json : NetCall R T) : Task R T :=
  Await json (fun s =>
    match s with
    | fulfilled body => Return body
    | rejected err =>
        Log (console_error err)
          (Throw (failed (APIError (code_of ParseError)
                            (lit "Failed to parse response body."))))
    end).

(** The part of [send] from [fetch] on.  For a status of 400 or above the
    text of the warning is built first: [body.code.toString(16)] is the
    engine's TypeError when there is no [code], outside any [try], and
    nothing is logged then; a missing [msg] prints as "undefined" and
    leaves the message of the APIError empty ([super(undefined)]). *)
Definition exchange {R : Type} (url : jsstring) (init : RequestInit) : Task R R :=
  Await (fetch url init) (fun s =>
    match s with
    | rejected err =>
        Log (console_error err)
          (Throw (failed (APIError (code_of NetworkFailure)
                            (lit "Failed to send request."))))
    | fulfilled response =>
        if (400 <=? status response)%Z then
          and_then (parseBody (json_as_error response)) (fun body =>
            match code body with
            | None => Throw (failed TypeError)
            | Some c =>
                Log (console_warn (lit "Server response error: " ++ toString16 c
                                     ++ lit ": " ++ default (lit "undefined") (msg body)))
                  (Throw (failed (APIError c (default [] (msg body)))))
            end)
        else parseBody (json_as_response response)
    end).

(** What [send] has done when it reaches [fetch] or throws before it: the
    caller's [data] as the loops left it, and the request or the failure. *)
Record Prepared : Type := {
  data_after : option Object;
  outcome : Failure + (jsstring * RequestInit);
}.

(** [send] up to [fetch]. *)
Definition prepare (platform : Platform) (this : ApiBuilder) (params : Object)
    (data : option Object) : option Prepared :=
  match path_loop platform (pathInfo this) params (url this) with
  | None => None
  | Some (inl f) => Some {| data_after := data; outcome := inl f |}
  | Some (inr url) =>
      match query_loop platform (queryInfo this) params [] with
      | None => None
      | Some (inl f) => Some {| data_after := data; outcome := inl f |}
      | Some (inr queryParams) =>
          let url :=
            match queryParams with
            | [] => url
            | _ :: _ => url ++ [63] ++ join [38] queryParams
            end in
          match
            match dataInfo this with
            | None => Some (data, None)
            | Some dataInfo => data_loop dataInfo data
            end
          with
          | None => None
          | Some (data, Some f) => Some {| data_after := data; outcome := inl f |}
          | Some (data, None) =>
              Some {| data_after := data;
                      outcome :=
                        inr (url,
                             {| init_method := method this;
                                init_headers :=
                                  [(lit "Content-Type", lit "application/json")];
                                init_redirect := redirectOption this;
                                init_body :=
                                  match dataInfo this with
                                  | None => None
                                  | Some _ => stringify_object platform <$> data
                                  end |}) |}
          end
      end
  end.

(** [send(params, data)] on the builder [this]; [None] when an argument is
    of a type the signature rules out. *)
Definition send {R : Type} (platform : Platform) (this : ApiBuilder) (params : Object)
    (data : option Object) : option (Task R R) :=
  match prepare platform this params data with
  | None => None
  | Some {| outcome := inl f |} => Some (Throw f)
  | Some {| outcome := inr (url, init) |} => Some (exchange url init)
  end.

(** [response()]: a new builder, and [send] bound to it; the function is
    known by the address of the builder it is bound to. *)
Definition response (this : Ref) : M Ref :=
  with_this this (fun b =>
    new_ApiBuilder (method b) (url b) (pathInfo b) (queryInfo b) (dataInfo b)).

(** Calling the function [response()] gave. *)
Definition call {R : Type} (platform : Platform) (f : Ref) (params : Object)
    (data : option Object) (h : Heap) : option (Task R R) :=
  match h !! f with
  | Some b => send platform b params data
  | None => Some (Throw (failed TypeError))
  end.

(** *** Running a task against a network *)

Definition Network (R W : Type) : Type := forall X : Type, NetCall R X -> W -> Settled X * W.

Inductive Happening (R : Type) : Type :=
| awaited {X : Type} (c : NetCall R X) (s : Settled X)
| logged (line : LogLine).
Arguments awaited {R X} c s.
Arguments logged {R} line.

Inductive End (A : Type) : Type :=
| resolved (a : A)
| thrown (f : Failure).
Arguments resolved {A} a.
Arguments thrown {A} f.

Fixpoint perform {R A W : Type} (net : Network R W) (t : Task R A) (w : W)
    : list (Happening R) * End A * W :=
  match t with
  | Return a => ([], resolved a, w)
  | Throw f => ([], thrown f, w)
  | Log line k =>
      let '(hs, e, w') := perform net k w in (logged line :: hs, e, w')
  | Await c k =>
      let (s, w1) := net _ c w in
      let '(hs, e, w') := perform net (k s) w1 in (awaited c s :: hs, e, w')
  end.

(** The requests a run fetched. *)
Definition fetched {R : Type} (h : Happening R) : option (jsstring * RequestInit) :=
  match h with
  | awaited c _ =>
      match c with
      | fetch url init => Some (url, init)
      | _ => None
      end
  | logged _ => None
  end.

(** *** Notions the properties of [send] are stated with *)

(** A declared parameter is in order: supplied and passed by its
    validator, or read as [undefined] and optional. *)
Definition accepted (params : Object) (entry : jsstring * ParamInfo) : Prop :=
  match read entry.1 params with
  | undefined => optional entry.2 = true
  | own value => exists v, call_validator entry.2 entry.1 value = Some (Returned v)
  | inherited => False
  end.

(** A declared field is an own property of [o] if it has to be there. *)
Definition supplied (o : Object) (entry : jsstring * ParamInfo) : Prop :=
  optional entry.2 = false -> is_Some (get_property entry.1 o).

(** A run fetched the request [req]. *)
Definition fetches {R : Type} (trace : list (Happening R)) (req : jsstring * RequestInit)
    : Prop :=
  exists h, h ∈ trace /\ fetched h = Some req.

(** A declared parameter that may not be left out. *)
Definition required (entry : jsstring * ParamInfo) : bool := negb (optional entry.2).

(** [q] is the entry [queryParams] gets for the declared key of [entry]:
    the key as it is, an equals sign, the validated value percent-encoded. *)
Definition query_entry (platform : Platform) (params : Object) (q : jsstring)
    (entry : jsstring * ParamInfo) : Prop :=
  exists value v encoded,
    get_property entry.1 params = Some value
    /\ call_validator entry.2 entry.1 value = Some (Returned v)
    /\ encodeURIComponent (toString platform v) = Some encoded
    /\ q = entry.1 ++ [61] ++ encoded.

End Request.

(** ** Which code a route calls *)
Module Calls.
Import Js Controller.

(** The functions outside the controller, by name. *)
Inductive Callee : Type :=
| get_ | new_ | session_id_ | join_ | reconnect_
| new_Client_ | bind_ | client_id_ | ws_ | log_.

Definition callee (e : Event) : Callee :=
  match e with
  | event c _ =>
      match c with
      | SessionManager_get _ => get_
      | SessionManager_new _ _ => new_
      | Session_id _ => session_id_
      | Session_join _ _ => join_
      | Session_reconnect _ _ _ => reconnect_
      | new_Client => new_Client_
      | Client_bind _ _ => bind_
      | Client_id _ => client_id_
      | ctx_ws _ => ws_
      | log_info _ => log_
      end
  end.

(** What a read of [session.id] gave. *)
Definition identity_read (e : Event) : option jsstring :=
  match e with
  | @event X c a =>
      match c in Call X return Answer X -> option jsstring with
      | Session_id _ => fun a => match a with Returns i => Some i | Throws _ => None end
      | _ => fun _ => None
      end a
  end.

(** The body a fulfilled route left in the context. *)
Definition body_of (c : Completion Context) : option jsstring :=
  match c with
  | Fulfilled ctx' => body ctx'
  | Rejected _ => None
  end.

(** What [SessionManager.get] returned. *)
Definition lookup_answer (e : Event) : option (option SessionRef) :=
  match e with
  | @event X c a =>
      match c in Call X return Answer X -> option (option SessionRef) with
      | SessionManager_get _ =>
          fun a => match a with Returns found => Some found | Throws _ => None end
      | _ => fun _ => None
      end a
  end.





End Calls.

(** ** Concrete requests, for running [send] *)
Module RequestSamples.
Import Js Api Request.

(** The inputs below hold no number. *)
Definition no_numbers : Platform := {| number_toString := fun _ => lit "0" |}.

(** [api("GET", "/session/{sessionId}/member/{name}")
      .path({ sessionId: "string", name: { type: "string", validator: validateNonEmpty } })
      .query({ verbose: "boolean", tag: { type: "string", ..., optional: true } })] *)
Definition get_member : ApiBuilder :=
  {| method := GET; url := lit "/session/{sessionId}/member/{name}";
     pathInfo :=
       simpleParam
         [(lit "sessionId", by_name string_name);
          (lit "name",
           by_info {| type := string_name; validator := validateNonEmpty;
                      optional := false |})];
     queryInfo :=
       simpleParam
         [(lit "verbose", by_name boolean_name);
          (lit "tag",
           by_info {| type := string_name; validator := validateByPass;
                      optional := true |})];
     dataInfo := None; redirectOption := None |}.

(** [api("POST", "/session/{sessionId}/title").path({ sessionId: "string" })
      .body({ title: { type: "string", validator: validateNonEmpty } })] *)
Definition set_title : ApiBuilder :=
  {| method := POST; url := lit "/session/{sessionId}/title";
     pathInfo := simpleParam [(lit "sessionId", by_name string_name)];
     queryInfo := [];
     dataInfo :=
       Some (simpleParam
               [(lit "title",
                 by_info {| type := string_name; validator := validateNonEmpty;
                            optional := false |})]);
     redirectOption := None |}.

Definition alice_in_room : Object :=
  [(lit "sessionId", VString (lit "room")); (lit "name", VString (lit "alice"));
   (lit "verbose", VBoolean true)].

Definition nobody_in_room : Object :=
  [(lit "sessionId", VString (lit "room")); (lit "name", VString (lit "  "))].

Definition new_title : Object :=
  [(lit "note", VString (lit "kept")); (lit "title", VString (lit "Movie night"))].

(** The request [get_member] makes for [alice_in_room]. *)
Definition member_request : jsstring * RequestInit :=
  (lit "/session/room/member/alice?verbose=true",
   {| init_method := GET; init_headers := [(lit "Content-Type", lit "application/json")];
      init_redirect := None; init_body := None |}).

(** A server that answers every request with [status]; the body is the
    text "ok", or an error of code 404 when read as an [ErrorResponse]. *)
Definition server (status : Z) : Network jsstring nat :=
  fun X c n =>
    (match c in NetCall _ X return Settled X with
     | fetch _ _ => fulfilled {| Request.status := status; body_ref := n |}
     | json_as_error _ =>
         fulfilled {| code := Some 404%Z; msg := Some (lit "no such session") |}
     | json_as_response _ => fulfilled (lit "ok")
     end, S n).

(** A gateway in front of the server: every request is answered with
    status 502 and the JSON body [{}], which has neither [code] nor [msg]. *)
Definition bad_gateway : Network jsstring nat :=
  fun X c n =>
    (match c in NetCall _ X return Settled X with
     | fetch _ _ => fulfilled {| Request.status := 502; body_ref := n |}
     | json_as_error _ => fulfilled {| code := None; msg := None |}
     | json_as_response _ => fulfilled (lit "{}")
     end, S n).

(** No network: every promise is rejected. *)
Definition offline : Network jsstring nat :=
  fun X c n => (rejected (reason n), S n).

End RequestSamples.

(** ** Further notions the properties are stated with *)
Module Notions.
Import Js Api Request.

(** A declared query parameter is in order and, if supplied, its validated
    text has no lone surrogate ([encodeURIComponent] does not throw). *)
Definition encodable (platform : Platform) (params : Object)
    (entry : jsstring * ParamInfo) : Prop :=
  match read entry.1 params with
  | undefined => optional entry.2 = true
  | own value =>
      exists v, call_validator entry.2 entry.1 value = Some (Returned v)
                /\ is_Some (encodeURIComponent (toString platform v))
  | inherited => False
  end.

(** No declared key names a member of [Object.prototype]. *)
Definition plain_keys (declared : ParamsDeclare) : Prop :=
  Forall (fun entry => entry.1 ∉ object_prototype_keys) declared.

(** [data] fits the declared body: nothing is declared, or the keys
    declared are distinct and each field is in order. *)
Definition fits (declared : option ParamsDeclare) (data : option Object) : Prop :=
  match declared with
  | None | Some [] => True
  | Some declared =>
      NoDup declared.*1 /\ exists o, data = Some o /\ Forall (accepted o) declared
  end.

(** The arguments of a call to [Session.reconnect]. *)
Definition reconnect_call (e : Controller.Event)
    : option (Controller.SessionRef * jsstring * Controller.WebSocket) :=
  match e with
  | Controller.event c _ =>
      match c with
      | Controller.Session_reconnect session clientId ws => Some (session, clientId, ws)
      | _ => None
      end
  end.

End Notions.

(** * Properties *)

(** ** JSON text *)
Section json_facts.
Import Js.

Lemma hex_value_digit (n : N) : n < 16 -> hex_value (hex_digit n) = Some n.
Proof.
  intros Hn. unfold hex_digit, hex_value.
  destruct (N.ltb_spec n 10).
  - replace ((48 <=? 48 + n) && (48 + n <=? 57)) with true.
    + f_equal. lia.
    + symmetry. apply andb_true_iff. split; apply N.leb_le; lia.
  - replace ((48 <=? 87 + n) && (87 + n <=? 57)) with false.
    + replace ((97 <=? 87 + n) && (87 + n <=? 102)) with true.
      * f_equal. lia.
      * symmetry. apply andb_true_iff. split; apply N.leb_le; lia.
    + symmetry. apply andb_false_iff. right. apply N.leb_gt. lia.
Qed.

(** Four hexadecimal digits hold a code unit. *)
Lemma four_digits (c : N) :
  c < 65536 ->
  4096 * (c / 4096 mod 16) + 256 * (c / 256 mod 16) + 16 * (c / 16 mod 16) + c mod 16 = c.
Proof.
  intros Hc.
  assert (c / 4096 < 16) as Htop by (apply N.Div0.div_lt_upper_bound; lia).
  rewrite (N.mod_small (c / 4096)) by exact Htop.
  pose proof (N.div_mod' c 16) as H1.
  pose proof (N.div_mod' (c / 16) 16) as H2.
  pose proof (N.div_mod' (c / 256) 16) as H3.
  assert (c / 16 / 16 = c / 256) as E2 by (by rewrite N.Div0.div_div).
  assert (c / 256 / 16 = c / 4096) as E3 by (by rewrite N.Div0.div_div).
  rewrite E2 in H2. rewrite E3 in H3. clear E2 E3 Htop.
  remember (c mod 16) as r0. remember (c / 16 mod 16) as r1.
  remember (c / 256 mod 16) as r2.
  remember (c / 16) as q1. remember (c / 256) as q2. remember (c / 4096) as q3.
  lia.
Qed.

Lemma unquote_escape (c : N) (rest : jsstring) :
  c < 65536 ->
  unquote_units (unicode_escape c ++ rest) = cons c <$> unquote_units rest.
Proof.
  intros Hc. unfold unicode_escape.
  cbn [app unquote_units]. change (92 =? 92) with true. change (117 =? 117) with true.
  cbv iota.
  rewrite !hex_value_digit by (apply N.mod_lt; lia).
  by rewrite four_digits.
Qed.

Local Ltac plain c :=
  replace (c =? 92) with false by (symmetry; apply N.eqb_neq; lia);
  replace ((c <? 32) || (c =? 34)) with false
    by (symmetry; apply orb_false_iff; split; [apply N.ltb_ge | apply N.eqb_neq]; lia).

(** What [quote] writes between the quotes reads back as the string. *)
Lemma unquote_quote_units (s : jsstring) : unquote_units (quote_units s) = Some s.
Proof.
  induction s as [s IH] using (induction_ltof1 _ (@length N)). unfold ltof in IH.
  destruct s as [|c s]; [reflexivity |]. cbn [quote_units].
  destruct (is_leading_surrogate c) eqn:Hlead.
  - apply andb_true_iff in Hlead as [Hlo Hhi]. apply N.leb_le in Hlo, Hhi.
    destruct s as [|d s].
    + rewrite <- (app_nil_r (unicode_escape c)), unquote_escape by lia. reflexivity.
    + destruct (is_trailing_surrogate d) eqn:Htrail.
      * apply andb_true_iff in Htrail as [Hlo' Hhi']. apply N.leb_le in Hlo', Hhi'.
        cbn [unquote_units]. plain c. plain d.
        rewrite IH by (simpl; lia). reflexivity.
      * rewrite unquote_escape by lia. rewrite IH by (simpl; lia). reflexivity.
  - unfold escape_unit. rewrite Hlead.
    destruct (N.eqb_spec c 8) as [-> |]; [cbn; rewrite IH by (simpl; lia); reflexivity |].
    destruct (N.eqb_spec c 9) as [-> |]; [cbn; rewrite IH by (simpl; lia); reflexivity |].
    destruct (N.eqb_spec c 10) as [-> |]; [cbn; rewrite IH by (simpl; lia); reflexivity |].
    destruct (N.eqb_spec c 12) as [-> |]; [cbn; rewrite IH by (simpl; lia); reflexivity |].
    destruct (N.eqb_spec c 13) as [-> |]; [cbn; rewrite IH by (simpl; lia); reflexivity |].
    destruct (N.eqb_spec c 34) as [-> |]; [cbn; rewrite IH by (simpl; lia); reflexivity |].
    destruct (N.eqb_spec c 92) as [-> |]; [cbn; rewrite IH by (simpl; lia); reflexivity |].
    destruct (N.ltb_spec c 32) as [Hctl | Hctl]; cbn [orb].
    + rewrite unquote_escape by lia. rewrite IH by (simpl; lia). reflexivity.
    + destruct (is_trailing_surrogate c) eqn:Htrail.
      * apply andb_true_iff in Htrail as [Hlo' Hhi']. apply N.leb_le in Hlo', Hhi'.
        rewrite unquote_escape by lia. rewrite IH by (simpl; lia). reflexivity.
      * cbn [app unquote_units]. plain c.
        rewrite IH by (simpl; lia). reflexivity.
Qed.

Lemma quote_inj (a b : jsstring) : quote a = quote b -> a = b.
Proof.
  unfold quote. intros [= H]. apply app_inv_tail in H.
  apply (f_equal unquote_units) in H. rewrite !unquote_quote_units in H. congruence.
Qed.

Lemma stringify_property (key value : jsstring) :
  stringify (JObject [(key, JString value)])
  = [123] ++ (quote key ++ [58] ++ quote value) ++ [125].
Proof. reflexivity. Qed.

(** Two sessions with the same answer text have the same identity. *)
Lemma sessionId_text_inj (a b : jsstring) :
  stringify (JObject [(lit "sessionId", JString a)])
  = stringify (JObject [(lit "sessionId", JString b)]) -> a = b.
Proof.
  rewrite !stringify_property. intros H.
  apply app_inv_head, app_inv_tail, app_inv_head, app_inv_head in H.
  by apply quote_inj.
Qed.

(** A control character, the quote, the backslash, a surrogate pair and a
    lone surrogate. *)
Example quote_escapes :
  quote [1; 34; 92; 55357; 56832; 55357]
  = [34] ++ lit "\u0001\" ++ [34] ++ lit "\\" ++ [55357; 56832] ++ lit "\ud83d" ++ [34].
Proof. reflexivity. Qed.

End json_facts.

(** ** The request builder *)
Section api_facts.
Import Js Api.

(** The star of [blank], entered at [pos] with [n] code units left, accepts
    exactly when all of them are white space. *)
Lemma iterate_white_space (text : jsstring) (n pos : nat) :
  (pos + n = length text)%nat ->
  iterate (backtrack (Class is_white_space) text) (backtrack Eol text (fun _ => true)) n pos
  = forallb is_white_space (drop pos text).
Proof.
  revert pos; induction n as [|n IH]; intros pos Hlen; simpl.
  - rewrite Nat.add_0_r in Hlen; subst pos.
    rewrite Nat.eqb_refl, drop_all. reflexivity.
  - destruct (lookup_lt_is_Some_2 text pos) as [c Hc]; [lia|].
    rewrite Hc, (drop_S _ _ _ Hc). simpl.
    replace (pos <? S pos)%nat with true by (symmetry; apply Nat.ltb_lt; lia).
    rewrite IH by lia. simpl.
    replace (pos =? length text)%nat with false by (symmetry; apply Nat.eqb_neq; lia).
    simpl. rewrite orb_false_r. reflexivity.
Qed.

(** [/^\s*$/.test(text)] says whether [text] is white space throughout. *)
Lemma test_blank (text : jsstring) : test blank text = forallb is_white_space text.
Proof.
  unfold test. rewrite <- cons_seq. simpl existsb.
  replace (existsb _ (seq 1 (length text))) with false.
  - rewrite orb_false_r. unfold blank. simpl.
    rewrite Nat.sub_0_r. apply (iterate_white_space text (length text) 0). lia.
  - symmetry. apply not_true_is_false. intros Hex.
    apply existsb_exists in Hex as (pos & Hin & Hm).
    apply in_seq in Hin. unfold blank in Hm. simpl in Hm.
    destruct pos; [lia | discriminate].
Qed.

Lemma all_white_space (text : jsstring) :
  forallb is_white_space text = true <-> Forall (fun c => is_white_space c = true) text.
Proof.
  rewrite forallb_forall, Forall_forall.
  split; intros H c Hc; apply H; by apply list_elem_of_In.
Qed.

(** C10. [validateNonEmpty key text] throws exactly when every code unit of
    [text] is white space (the empty string included), and what it throws
    is an APIError with code InvalidParameter, -2; on any other text it
    returns that text. *)
Theorem validateNonEmpty_throws_iff_blank (key text : jsstring) :
  ((exists e, validateNonEmpty key text = Thrown e)
   <-> Forall (fun c => is_white_space c = true) text)
  /\ (forall e, validateNonEmpty key text = Thrown e ->
        e = APIError (code_of InvalidParameter) (lit "'" ++ key ++ lit "' cannot be empty")
        /\ code_of InvalidParameter = (-2)%Z)
  /\ (~ Forall (fun c => is_white_space c = true) text ->
      validateNonEmpty key text = Returned text).
Proof.
  unfold validateNonEmpty. rewrite test_blank, <- all_white_space.
  destruct (forallb is_white_space text).
  - split; [| split].
    + split; [reflexivity | intros _; by eexists].
    + intros e [= <-]. split; reflexivity.
    + intros H. by destruct H.
  - split; [| split].
    + split; [intros [e He]; discriminate He | intros H; discriminate H].
    + intros e He. discriminate He.
    + reflexivity.
Qed.

(** C9. On a builder whose method is GET, HEAD, CONNECT, DELETE or OPTIONS,
    [body] throws an APIError with code Error, -1, and the store of builders
    is as before; on POST, PUT or PATCH it returns a builder at a new
    address, carrying the declared body schema and the method, url, path
    and query declarations of [this], and every builder that was there,
    [this] included, is as before. *)
Theorem body_by_method (h : Heap) (this : Ref) (b : ApiBuilder) (data : SimpleParamsDeclare) :
  h !! this = Some b ->
  (method b ∈ [GET; HEAD; CONNECT; DELETE; OPTIONS] ->
     body this data h
     = (Thrown (APIError (-1) (lit "HTTP Method " ++ method_name (method b)
                                 ++ lit " should not have body.")), h))
  /\ (method b ∈ [POST; PUT; PATCH] ->
      exists (fresh : Ref) (h' : Heap),
        body this data h = (Returned fresh, h')
        /\ h !! fresh = None
        /\ h' !! fresh
           = Some {| method := method b; url := url b; pathInfo := pathInfo b;
                     queryInfo := queryInfo b; dataInfo := Some (simpleParam data);
                     redirectOption := None |}
        /\ forall (a : Ref) (x : ApiBuilder), h !! a = Some x -> h' !! a = Some x).
Proof.
  intros Hthis. unfold body, with_this. rewrite Hthis. split; intros Hm.
  - destruct (method b); try reflexivity; exfalso; revert Hm; clear;
      rewrite !elem_of_cons, elem_of_nil; intuition discriminate.
  - assert (new_ApiBuilder (method b) (url b) (pathInfo b) (queryInfo b)
              (Some (simpleParam data)) h
            = (Returned (length h),
               h ++ [{| method := method b; url := url b; pathInfo := pathInfo b;
                        queryInfo := queryInfo b; dataInfo := Some (simpleParam data);
                        redirectOption := None |}])) as Hnew by reflexivity.
    exists (length h), (h ++ [{| method := method b; url := url b; pathInfo := pathInfo b;
                                queryInfo := queryInfo b;
                                dataInfo := Some (simpleParam data);
                                redirectOption := None |}]).
    repeat split.
    + destruct (method b); try exact Hnew; exfalso; revert Hm; clear;
        rewrite !elem_of_cons, elem_of_nil; intuition discriminate.
    + by apply lookup_ge_None_2.
    + by rewrite lookup_app_r, Nat.sub_diag.
    + intros a x Ha. by apply lookup_app_l_Some.
Qed.

Lemma body_by_method_witness :
  Samples.builders !! 0%nat
  = Some {| method := GET; url := lit "/session/{id}"; pathInfo := []; queryInfo := [];
            dataInfo := None; redirectOption := None |}
  /\ body 0%nat Samples.declared_body Samples.builders
     = (Thrown (APIError (-1) (lit "HTTP Method GET should not have body.")),
        Samples.builders).
Proof.
  split; [reflexivity |].
  apply (body_by_method Samples.builders 0%nat _ Samples.declared_body eq_refl).
  simpl. apply list_elem_of_here.
Defined.

(** The POST builder of the samples takes the declaration: the new builder
    sits at address 2, with no redirect option of its own. *)
Example body_on_post :
  body 1%nat Samples.declared_body Samples.builders
  = (Returned 2%nat,
     Samples.builders
       ++ [{| method := POST; url := lit "/session"; pathInfo := []; queryInfo := [];
              dataInfo :=
                Some [(lit "name",
                       {| type := string_name; validator := validateByPass;
                          optional := false |});
                      (lit "title",
                       {| type := string_name; validator := validateNonEmpty;
                          optional := true |})];
              redirectOption := None |}]).
Proof. reflexivity. Qed.

(** X7. [api(method, url).body(data)] returns a new builder exactly for
    POST, PUT and PATCH, and throws the APIError of code -1 that names the
    method for every other method, whatever [data] declares. *)
Lemma body_after_api (method : HTTPMethods) (url : jsstring)
    (data : SimpleParamsDeclare) (h : Heap) :
  (body (length h) data (api method url h).2).1
  = match method with
    | POST | PUT | PATCH => Returned (S (length h))
    | _ => Thrown (APIError (-1) (lit "HTTP Method " ++ method_name method
                                    ++ lit " should not have body."))
    end.
Proof.
  destruct method; unfold api, new_ApiBuilder, body, with_this; cbn [snd];
    rewrite lookup_app_r, Nat.sub_diag by lia; cbn; try reflexivity;
    by rewrite length_app, Nat.add_1_r.
Qed.

Example validateNonEmpty_on_samples :
  validateNonEmpty (lit "title") (lit " room 1 ") = Returned (lit " room 1 ")
  /\ validateNonEmpty (lit "title") [9; 32; 12288; 10]
     = Thrown (APIError (-2) (lit "'title' cannot be empty"))
  /\ validateNonEmpty (lit "title") []
     = Thrown (APIError (-2) (lit "'title' cannot be empty")).
Proof. repeat split. Qed.

End api_facts.

(** ** The controller's routes *)
Section routes.
Import Js Controller Calls.
Context {W : Type} (env : Environment W).

Local Ltac answered H := cbn; rewrite H; cbn.
Local Ltac shown := eexists _, _; (split; [reflexivity | repeat constructor]).

(** C1. POST /session: the first and only call into the manager is
    [SessionManager.new] with the parsed body and the configured session
    lifetime; once it has returned a session and that session's [id] has
    been read, the route is fulfilled with the body set to the JSON text of
    [{ sessionId: id }], where [id] is the identity of the session that
    [new] returned, and with the JSON content type. *)
Theorem post_session_answers_new_id (ctx : Context) (session : SessionRef)
    (session_id : jsstring) (w w1 w2 : W) :
  env _ (SessionManager_new (request_body ctx) (options_sessionLifetime ctx)) w
  = (Returns session, w1) ->
  env _ (Session_id session) w1 = (Returns session_id, w2) ->
  let r := run env (post_session ctx) w in
  trace r
  = [event (SessionManager_new (request_body ctx) (options_sessionLifetime ctx))
       (Returns session);
     event (Session_id session) (Returns session_id)]
  /\ exists ctx',
      completion r = Fulfilled ctx'
      /\ body ctx' = Some (stringify (JObject [(lit "sessionId", JString session_id)]))
      /\ body ctx' = Some (lit "{" ++ quote (lit "sessionId") ++ lit ":" ++ quote session_id
                             ++ lit "}")
      /\ (lit "Content-Type", lit "application/json") ∈ response_headers ctx'.
Proof.
  intros Hnew Hid r. subst r. unfold post_session. answered Hnew. answered Hid.
  split; [reflexivity |]. eexists. split; [reflexivity |]. cbn.
  repeat split. apply list_elem_of_here.
Qed.

(** C2. On either session path, when [SessionManager.get] finds no session
    the route answers 404, and neither [Session.join] nor
    [Session.reconnect] is called. *)
Theorem absent_session_is_404 (ctx : Context) (w w1 : W) :
  env _ (SessionManager_get (params_sessionId ctx)) w = (Returns None, w1) ->
  quiet 404 (run env (all_session_sessionId ctx) w)
  /\ quiet 404 (run env (all_session_sessionId_clientId ctx) w).
Proof.
  intros Hget. split.
  - unfold all_session_sessionId. answered Hget.
    split; [eexists; split; reflexivity | repeat constructor].
  - unfold all_session_sessionId_clientId. answered Hget.
    split; [eexists; split; reflexivity | repeat constructor].
Qed.

(** C3. On either session path, a request that is no upgrade ([ctx.ws] is
    absent) to an existing session is answered 400, and neither
    [Session.join] nor [Session.reconnect] is called. *)
Theorem plain_request_is_400 (ctx : Context) (session : SessionRef) (w w1 : W) :
  ws ctx = None ->
  env _ (SessionManager_get (params_sessionId ctx)) w = (Returns (Some session), w1) ->
  quiet 400 (run env (all_session_sessionId ctx) w)
  /\ quiet 400 (run env (all_session_sessionId_clientId ctx) w).
Proof.
  intros Hws Hget. split.
  - unfold all_session_sessionId. answered Hget. rewrite Hws.
    split; [eexists; split; reflexivity | repeat constructor].
  - unfold all_session_sessionId_clientId. answered Hget. rewrite Hws.
    split; [eexists; split; reflexivity | repeat constructor].
Qed.

(** C4. An upgrade request to /session/{sessionId} of an existing session:
    the route awaits the upgraded connection, constructs a Client, binds
    the connection to it, and then calls [Session.join] on the session that
    [get] returned with that very client; these are its first five calls,
    in this order, and no later call enters the core again. *)
Theorem upgrade_binds_then_joins (ctx : Context) (f : Upgrade) (session : SessionRef)
    (sock : WebSocket) (client : ClientRef) (w w1 w2 w3 w4 : W) :
  ws ctx = Some f ->
  env _ (SessionManager_get (params_sessionId ctx)) w = (Returns (Some session), w1) ->
  env _ (ctx_ws f) w1 = (Returns sock, w2) ->
  env _ new_Client w2 = (Returns client, w3) ->
  env _ (Client_bind client sock) w3 = (Returns (), w4) ->
  exists (a : Answer unit) (rest : list Event),
    trace (run env (all_session_sessionId ctx) w)
    = [event (SessionManager_get (params_sessionId ctx)) (Returns (Some session));
       event (ctx_ws f) (Returns sock);
       event new_Client (Returns client);
       event (Client_bind client sock) (Returns ());
       event (Session_join session client) a] ++ rest
    /\ Forall (fun e => enters_core e = false) rest.
Proof.
  intros Hws Hget Hup Hnew Hbind.
  unfold all_session_sessionId. answered Hget. rewrite Hws.
  answered Hup. answered Hnew. answered Hbind.
  destruct (env _ (Session_join session client) w4) as [[[] | e] w5] eqn:Hjoin; cbn;
    [| shown].
  destruct (env _ (Client_id client) w5) as [[i | e] w6] eqn:Hid; cbn; [| shown].
  destruct (env _ (log_info _) w6) as [[[] | e] w7] eqn:Hlog; cbn; shown.
Qed.


(** X4. Whatever the environment answers, [Session.join] is only ever the
    fifth call of the route, after the session was found, the connection
    upgraded, a Client constructed and the connection bound to it. *)
Lemma join_only_after_bind (ctx : Context) (w : W) (i : nat) (e : Event)
    (session : SessionRef) (client : ClientRef) :
  trace (run env (all_session_sessionId ctx) w) !! i = Some e ->
  join_call e = Some (session, client) ->
  i = 4%nat
  /\ exists (f : Upgrade) (sock : WebSocket),
      ws ctx = Some f
      /\ take 4 (trace (run env (all_session_sessionId ctx) w))
         = [event (SessionManager_get (params_sessionId ctx)) (Returns (Some session));
            event (ctx_ws f) (Returns sock);
            event new_Client (Returns client);
            event (Client_bind client sock) (Returns ())].
Proof.
  unfold all_session_sessionId. cbn.
  destruct (env _ (SessionManager_get _) w) as [[[s|] | ?] w1]; cbn.
  2,3: by destruct i as [|[|]]; intros [= <-].
  destruct (ws ctx) as [f|]; cbn.
  2: by destruct i as [|[|]]; intros [= <-].
  destruct (env _ (ctx_ws f) w1) as [[sock | ?] w2]; cbn.
  2: by destruct i as [|[|[|]]]; intros [= <-].
  destruct (env _ new_Client w2) as [[c | ?] w3]; cbn.
  2: by destruct i as [|[|[|[|]]]]; intros [= <-].
  destruct (env _ (Client_bind c sock) w3) as [[[] | ?] w4]; cbn.
  2: by destruct i as [|[|[|[|[|]]]]]; intros [= <-].
  destruct (env _ (Session_join s c) w4) as [[[] | ?] w5]; cbn.
  2: { destruct i as [|[|[|[|[|[|]]]]]]; intros [= <-]; try discriminate.
       intros [= <- <-]. split; [reflexivity |]. by exists f, sock. }
  destruct (env _ (Client_id c) w5) as [[cid | ?] w6]; cbn.
  2: { destruct i as [|[|[|[|[|[|[|]]]]]]]; intros [= <-]; try discriminate.
       intros [= <- <-]. split; [reflexivity |]. by exists f, sock. }
  destruct (env _ (log_info _) w6) as [[[] | ?] w7]; cbn.
  all: destruct i as [|[|[|[|[|[|[|[|]]]]]]]]; intros [= <-]; try discriminate.
  all: intros [= <- <-]; split; [reflexivity |]; by exists f, sock.
Qed.

End routes.

(** The routes run against [Samples.outside]. *)
Section routes_run.
Import Js Controller Calls.

Lemma post_session_answers_new_id_witness :
  Samples.outside _ (SessionManager_new (session_options 0) 3600%float) 0%nat
  = (Returns (session_ref 1), 1%nat)
  /\ Samples.outside _ (Session_id (session_ref 1)) 1%nat = (Returns (lit "room"), 2%nat)
  /\ exists ctx',
      completion (run Samples.outside (post_session (Samples.request "" "" false)) 0%nat)
      = Fulfilled ctx'
      /\ body ctx'
         = Some ([123; 34] ++ lit "sessionId" ++ [34; 58; 34] ++ lit "room" ++ [34; 125]).
Proof.
  split; [reflexivity |]. split; [reflexivity |].
  destruct (post_session_answers_new_id Samples.outside (Samples.request "" "" false)
              (session_ref 1) (lit "room") 0%nat 1%nat 2%nat eq_refl eq_refl)
    as (_ & ctx' & Hdone & _ & Hbody & _).
  exists ctx'. split; [exact Hdone | exact Hbody].
Defined.

Lemma absent_session_is_404_witness :
  Samples.outside _ (SessionManager_get (lit "nowhere")) 0%nat = (Returns None, 1%nat)
  /\ quiet 404 (run Samples.outside
                  (all_session_sessionId (Samples.request "nowhere" "alice" true)) 0%nat)
  /\ quiet 404 (run Samples.outside
                  (all_session_sessionId_clientId (Samples.request "nowhere" "alice" true))
                  0%nat).
Proof.
  split; [reflexivity |].
  exact (absent_session_is_404 Samples.outside (Samples.request "nowhere" "alice" true)
           0%nat 1%nat eq_refl).
Defined.

Lemma plain_request_is_400_witness :
  ws (Samples.request "room" "alice" false) = None
  /\ quiet 400 (run Samples.outside
                  (all_session_sessionId (Samples.request "room" "alice" false)) 0%nat)
  /\ quiet 400 (run Samples.outside
                  (all_session_sessionId_clientId (Samples.request "room" "alice" false))
                  0%nat).
Proof.
  split; [reflexivity |].
  exact (plain_request_is_400 Samples.outside (Samples.request "room" "alice" false)
           (session_ref 1) 0%nat 1%nat eq_refl eq_refl).
Defined.

Lemma upgrade_binds_then_joins_witness :
  exists (a : Answer unit) (rest : list Event),
    trace (run Samples.outside (all_session_sessionId (Samples.request "room" "" true))
             0%nat)
    = [event (SessionManager_get (lit "room")) (Returns (Some (session_ref 1)));
       event (ctx_ws (upgrade 0)) (Returns (websocket 1));
       event new_Client (Returns (client_ref 2));
       event (Client_bind (client_ref 2) (websocket 1)) (Returns ());
       event (Session_join (session_ref 1) (client_ref 2)) a] ++ rest
    /\ Forall (fun e => enters_core e = false) rest.
Proof.
  exact (upgrade_binds_then_joins Samples.outside (Samples.request "room" "" true)
           (upgrade 0) (session_ref 1) (websocket 1) (client_ref 2)
           0%nat 1%nat 2%nat 3%nat 4%nat eq_refl eq_refl eq_refl eq_refl eq_refl).
Defined.



End routes_run.

(** ** The relay core *)
Section session_facts.
Import Js Relay.
Context {T : TokenSource}.

Lemma set_member_keys (i : jsstring) (c : Client) (ms : list (jsstring * Client)) :
  (set_member i c ms).*1 = ms.*1.
Proof.
  induction ms as [|[j c0] ms IH]; [reflexivity |]. simpl set_member.
  destruct (decide (j = i)); rewrite !fmap_cons; [reflexivity | by rewrite IH].
Qed.

Lemma member_None (i : jsstring) (ms : list (jsstring * Client)) :
  member i ms = None <-> i ∉ ms.*1.
Proof.
  induction ms as [|[j c0] ms IH]; simpl member.
  - split; [intros _; apply not_elem_of_nil | reflexivity].
  - rewrite fmap_cons, not_elem_of_cons. simpl. destruct (decide (j = i)) as [-> | Hne].
    + split; [discriminate | intros [Hne _]; by destruct Hne].
    + rewrite IH. split; [intros Hi; split; [congruence | exact Hi] | intros [_ Hi]; exact Hi].
Qed.

(** An operation keeps every key of the member mapping, in order, and adds
    at the end the identity it issued, if any. *)
Lemma session_step_keys (grace now : Z) (op : SessionOp) (s : Session) :
  (members (session_step grace now op s).1.1).*1
  = (members s).*1 ++ issued_by [(session_step grace now op s).2].
Proof.
  destruct op as [entropy c | clientId conn | clientId conn | sender payload]; simpl.
  - by rewrite fmap_app.
  - unfold reconnect. destruct (member clientId (members s)); simpl.
    + by rewrite set_member_keys, app_nil_r.
    + by rewrite app_nil_r.
  - rewrite app_nil_r. unfold transport_closed.
    destruct (member clientId (members s)); [| reflexivity].
    destruct (decide _); [| reflexivity]. simpl. apply set_member_keys.
  - by rewrite app_nil_r.
Qed.

(** An identity is issued only if no member holds it. *)
Lemma session_step_fresh (grace now : Z) (op : SessionOp) (s : Session) (i : jsstring) :
  i ∈ issued_by [(session_step grace now op s).2] -> i ∉ (members s).*1.
Proof.
  destruct op as [entropy c | clientId conn | clientId conn | sender payload]; simpl.
  - intros Hi. apply list_elem_of_singleton in Hi as ->. apply token_fresh.
  - unfold reconnect. destruct (member clientId (members s)); simpl;
      intros Hi; by apply elem_of_nil in Hi.
  - intros Hi; by apply elem_of_nil in Hi.
  - intros Hi; by apply elem_of_nil in Hi.
Qed.

Lemma issued_by_cons (r : Reply) (rs : list Reply) :
  issued_by (r :: rs) = issued_by [r] ++ issued_by rs.
Proof. unfold issued_by. simpl. by destruct r. Qed.

Lemma session_run_cons (grace now : Z) (op : SessionOp) (history : list (Z * SessionOp))
    (s : Session) :
  session_run grace ((now, op) :: history) s
  = let first := session_step grace now op s in
    let later := session_run grace history first.1.1 in
    (later.1.1, first.1.2 ++ later.1.2, first.2 :: later.2).
Proof.
  simpl. destruct (session_step grace now op s) as [[s1 e1] r].
  simpl. by destruct (session_run grace history s1) as [[s2 e2] rs].
Qed.

(** The keys of the member mapping are the keys it had, then the
    identities issued since, in the order of issue. *)
Lemma session_run_keys (grace : Z) (history : list (Z * SessionOp)) (s : Session) :
  (members (session_run grace history s).1.1).*1
  = (members s).*1 ++ issued_by (session_run grace history s).2.
Proof.
  revert s; induction history as [|[now op] history IH]; intros s.
  - simpl. by rewrite app_nil_r.
  - rewrite session_run_cons. cbn [fst snd].
    rewrite IH, session_step_keys.
    rewrite (issued_by_cons _ (session_run grace history _).2).
    by rewrite app_assoc.
Qed.

(** No operation makes two members share an identity. *)
Lemma session_run_NoDup (grace : Z) (history : list (Z * SessionOp)) (s : Session) :
  NoDup (members s).*1 -> NoDup (members (session_run grace history s).1.1).*1.
Proof.
  revert s; induction history as [|[now op] history IH]; intros s Hs; [exact Hs |].
  rewrite session_run_cons. cbn [fst snd]. apply IH.
  rewrite session_step_keys. apply NoDup_app. split; [exact Hs |]. split.
  - intros i Hi Hr. by apply (session_step_fresh grace now op s i).
  - unfold issued_by.
    destruct (session_step grace now op s).2; simpl;
      [apply NoDup_singleton | apply NoDup_nil_2 ..].
Qed.

(** Every join issues an identity: as many identities as joins. *)
Lemma every_join_issues (grace : Z) (history : list (Z * SessionOp)) (s : Session) :
  length (issued_by (session_run grace history s).2)
  = length (List.filter (fun op => is_join op.2) history).
Proof.
  revert s; induction history as [|[now op] history IH]; intros s; [reflexivity |].
  rewrite session_run_cons. cbn [fst snd].
  rewrite (issued_by_cons _ (session_run grace history _).2), length_app, IH.
  destruct op as [entropy c | clientId conn | clientId conn | sender payload]; cbn;
    try reflexivity.
  unfold reconnect. by destruct (member clientId (members s)).
Qed.

(** C6. After any history of operations on a fresh Session, [reconnect] with
    an identity that the Session never issued signals NotFound, hands back
    the Session as it was (its member mapping in particular), and has no
    effect on any connection: the supplied connection is bound to no
    Client. *)
Theorem reconnect_unknown_identity (grace : Z) (history : list (Z * SessionOp))
    (sessionId : jsstring) (options : Controller.SessionOptions) (created lifetime : Z)
    (clientId : jsstring) (conn : Connection) :
  let past := session_run grace history (new_Session sessionId options created lifetime) in
  let s := past.1.1 in
  clientId ∉ issued_by past.2 ->
  reconnect clientId conn s = (s, [], NotFound)
  /\ members (reconnect clientId conn s).1.1 = members s
  /\ binds conn ∉ (reconnect clientId conn s).1.2.
Proof.
  intros past s Hnever.
  assert (member clientId (members s) = None) as Habsent.
  { apply member_None. subst s past. by rewrite session_run_keys. }
  unfold reconnect. rewrite Habsent. repeat split. apply not_elem_of_nil.
Qed.

(** C7. After any history of operations on a fresh Session (joins alone, or
    joins mixed with reconnects, lost connections and messages), the
    identities issued are pairwise distinct, and so are the identities in
    the member mapping, which are the issued ones in the order of issue. *)
Theorem issued_identities_distinct (grace : Z) (history : list (Z * SessionOp))
    (sessionId : jsstring) (options : Controller.SessionOptions) (created lifetime : Z) :
  let past := session_run grace history (new_Session sessionId options created lifetime) in
  NoDup (issued_by past.2)
  /\ NoDup ((members past.1.1).*1)
  /\ (members past.1.1).*1 = issued_by past.2.
Proof.
  intros past.
  pose proof (session_run_keys grace history
                (new_Session sessionId options created lifetime)) as Hkeys.
  pose proof (session_run_NoDup grace history
                (new_Session sessionId options created lifetime) (NoDup_nil_2)) as Hnodup.
  fold past in Hkeys, Hnodup. simpl in Hkeys. rewrite <- Hkeys. auto.
Qed.

End session_facts.

Section manager_facts.
Import Js Relay.
Context {T : TokenSource}.

(** What is registered once the due timers have fired: what was registered
    and is not due. *)
Lemma settle_lookup (w : Manager) (k : jsstring) (s : Session) :
  registry (settle w) !! k = Some s <-> registry w !! k = Some s /\ due (now w) s = false.
Proof. unfold settle. simpl. by rewrite map_lookup_filter_Some. Qed.

(** No operation on a Session moves its creation time, lifetime or identity. *)
Lemma session_step_deadline (grace now : Z) (op : SessionOp) (s : Session) :
  let s' := (session_step grace now op s).1.1 in
  created s' = created s /\ lifetime s' = lifetime s /\ id s' = id s.
Proof.
  destruct op as [entropy c | clientId conn | clientId conn | sender payload]; simpl.
  - done.
  - unfold reconnect. by destruct (member clientId (members s)).
  - unfold transport_closed. destruct (member clientId (members s)); [| done].
    by destruct (decide _).
  - done.
Qed.

Lemma apply_tracked (sessionId : jsstring) (deadline : Z) (op : Op) (w : Manager) :
  tracked sessionId deadline w -> tracked sessionId deadline (apply op w).
Proof.
  intros [Hissued Hdeadline].
  destruct op as [entropy options lifetime | target op | elapsed];
    unfold tracked, apply, new; cbn [fst registry issued now grace].
  - split; [by apply list_elem_of_further |].
    intros s. rewrite lookup_insert_ne; [apply Hdeadline |].
    intros Heq. apply (token_fresh entropy (issued w)). by rewrite Heq.
  - unfold get. destruct (registry w !! target) as [s0|] eqn:Htarget; [| by split].
    pose proof (session_step_deadline (grace w) (now w) op s0) as Hsame.
    destruct (session_step (grace w) (now w) op s0) as [[s1 e] r].
    cbn [fst] in Hsame. cbn [registry issued].
    split; [exact Hissued |]. intros s.
    destruct (decide (target = sessionId)) as [-> | Hne].
    + rewrite lookup_insert_eq. intros [= <-].
      destruct Hsame as (-> & -> & _). by apply Hdeadline.
    + rewrite lookup_insert_ne by exact Hne. apply Hdeadline.
  - by split.
Qed.

Lemma settle_tracked (sessionId : jsstring) (deadline : Z) (w : Manager) :
  tracked sessionId deadline w -> tracked sessionId deadline (settle w).
Proof.
  intros [Hissued Hdeadline]. split; [exact Hissued |].
  intros s Hs. apply settle_lookup in Hs as [Hs _]. by apply Hdeadline.
Qed.

Lemma steps_tracked (sessionId : jsstring) (deadline : Z) (ops : list Op) (w : Manager) :
  tracked sessionId deadline w -> tracked sessionId deadline (steps ops w).
Proof.
  revert w; induction ops as [|op ops IH]; intros w Hw; [exact Hw |].
  apply IH. by apply settle_tracked, apply_tracked.
Qed.

(** Removing an identity twice is removing it once. *)
Lemma remove_idempotent (sessionId : jsstring) (w : Manager) :
  remove sessionId (remove sessionId w) = remove sessionId w.
Proof. unfold remove. cbn. f_equal. apply delete_delete_eq. Qed.

Lemma get_after_remove (sessionId : jsstring) (w : Manager) :
  get sessionId (remove sessionId w) = None.
Proof. apply lookup_delete_eq. Qed.

Lemma steps_snoc (ops : list Op) (op : Op) (w : Manager) :
  steps (ops ++ [op]) w = step op (steps ops w).
Proof. unfold steps. by rewrite foldl_app. Qed.

(** After at least one operation, no registered Session is due. *)
Lemma steps_settled (ops : list Op) (op : Op) (w : Manager) (k : jsstring) (s : Session) :
  registry (steps ops (step op w)) !! k = Some s ->
  due (now (steps ops (step op w))) s = false.
Proof.
  destruct ops as [|op' ops _] using rev_ind.
  - intros Hs. by apply settle_lookup in Hs as [_ Hs].
  - rewrite steps_snoc. intros Hs. by apply settle_lookup in Hs as [_ Hs].
Qed.

(** C8. Let a Session be created with lifetime [lifetime] in any reachable
    state of the manager.  Whatever happens afterwards (joins, reconnects,
    messages, lost connections, time passing), in every state whose clock
    is at or past creation time plus [lifetime], [get] with that Session's
    identity finds nothing. *)
Theorem expired_session_is_absent (grace0 : Z) (before after : list Op)
    (entropy : N) (options : Controller.SessionOptions) (lifetime : Z) :
  let w0 := steps before (initial grace0) in
  let s := (new entropy options lifetime w0).2 in
  let w := steps after (step (op_new entropy options lifetime) w0) in
  (created s + lifetime <= now w)%Z ->
  get (id s) w = None.
Proof.
  intros w0 s w Hlate. unfold get.
  destruct (registry w !! id s) as [s'|] eqn:Hs'; [exfalso | reflexivity].
  assert (tracked (id s) (created s + lifetime)%Z w) as [_ Hdeadline].
  { apply steps_tracked, settle_tracked. split; simpl.
    - apply list_elem_of_here.
    - rewrite lookup_insert_eq. by intros s0 [= <-]. }
  pose proof (steps_settled after (op_new entropy options lifetime) w0 _ _ Hs') as Hdue.
  fold w in Hdue. apply Hdeadline in Hs'.
  unfold due in Hdue. apply orb_false_iff in Hdue as [Hdue _].
  apply Z.leb_gt in Hdue. lia.
Qed.

End manager_facts.

(** The relay core run with [Relay.first_unused]. *)
Section relay_run.
Import Js Relay.

(** The specification's scenario 8: "unknown-id" was never issued. *)
Lemma reconnect_unknown_identity_witness :
  let past := @session_run first_unused 30 Samples.two_members
                (new_Session (lit "room") (Controller.session_options 0) 0 60) in
(lit "unknown-id" ∉ issued_by past.2)
  /\ reconnect (lit "unknown-id") 9%nat past.1.1 = (past.1.1, [], NotFound).
Proof.
  assert (lit "unknown-id"
          ∉ issued_by (@session_run first_unused 30 Samples.two_members
                         (new_Session (lit "room") (Controller.session_options 0) 0 60)).2)
    as Hnever by (apply (bool_decide_unpack _); vm_compute; exact I).
  split; [exact Hnever |].
  exact (proj1 (reconnect_unknown_identity (T := first_unused) 30 Samples.two_members
                  (lit "room") (Controller.session_options 0) 0 60
                  (lit "unknown-id") 9%nat Hnever)).
Defined.

(** A member that lost its connection reconnects under its own identity. *)
Example reconnect_known_identity :
  let past := @session_run first_unused 30 Samples.two_members
                (new_Session (lit "room") (Controller.session_options 0) 0 60) in
  (reconnect (@token first_unused 12 [@token first_unused 11 []]) 9%nat past.1.1).1.2
  = [binds 9%nat]
  /\ (reconnect (@token first_unused 12 [@token first_unused 11 []]) 9%nat past.1.1).2
     = Done.
Proof. vm_compute. split; reflexivity. Qed.

(** One time unit before its deadline the sample session is still there. *)
Example session_alive_before_deadline :
  let w := @steps first_unused Samples.busy_minute
             (@step first_unused (op_new 7 (Controller.session_options 0) 60) (initial 5)) in
  now w = 59%Z /\ (members <$> get Samples.room w)
                  = Some [(@token first_unused 11 [],
                           {| client_id := Some (@token first_unused 11 []);
                              connection := Some 4%nat |})].
Proof. vm_compute. split; reflexivity. Qed.

Lemma expired_session_is_absent_witness :
  let w := @steps first_unused (Samples.busy_minute ++ [op_tick 1])
             (@step first_unused (op_new 7 (Controller.session_options 0) 60) (initial 5)) in
  (0 + 60 <= now w)%Z /\ get Samples.room w = None.
Proof.
  assert (0 + 60 <= now (@steps first_unused (Samples.busy_minute ++ [op_tick 1])
                           (@step first_unused
                              (op_new 7 (Controller.session_options 0) 60) (initial 5))))%Z
    as Hlate by (vm_compute; discriminate).
  split; [exact Hlate |].
  exact (expired_session_is_absent (T := first_unused) 5 [] (Samples.busy_minute ++ [op_tick 1])
           7 (Controller.session_options 0) 60 Hlate).
Defined.

End relay_run.

(** ** What the routes call, and in which order *)
Section route_calls.
Import Js Controller Calls.
Context {W : Type} (env : Environment W).

Local Ltac answers :=
  repeat match goal with
    | |- context [env ?X ?c ?w] =>
        let a := fresh "a" in let w' := fresh "w" in
        destruct (env X c w) as [[a | ?] w']; cbn
    | |- context [match ?o with Some _ => _ | None => _ end] => destruct o; cbn
    | a : unit |- _ => destruct a
    end.

(** X1. Whatever the outside code answers, the calls of the route for
    /session/{sessionId} are a beginning of: [SessionManager.get], [ctx.ws],
    [new Client], [Client.bind], [Session.join], the read of [client.id],
    [log.info].  So the route never calls [reconnect] or
    [SessionManager.new], calls nothing twice, and reads and logs the
    client's identity only after [join]. *)
Theorem join_route_call_order (ctx : Context) (w : W) :
  callee <$> trace (run env (all_session_sessionId ctx) w)
  `prefix_of` [get_; ws_; new_Client_; bind_; join_; client_id_; log_].
Proof.
  unfold all_session_sessionId. cbn. answers; by eexists.
Qed.

(** X2. Whatever the outside code answers, the calls of the route for
    /session/{sessionId}/{clientId} are a beginning of:
    [SessionManager.get], [ctx.ws], [Session.reconnect], [log.info].  So
    the route never constructs or binds a Client and never joins. *)
Theorem reconnect_route_call_order (ctx : Context) (w : W) :
  callee <$> trace (run env (all_session_sessionId_clientId ctx) w)
  `prefix_of` [get_; ws_; reconnect_; log_].
Proof.
  unfold all_session_sessionId_clientId. cbn. answers; by eexists.
Qed.

(** X3. Whatever the outside code answers, the calls of the POST route are
    a beginning of: [SessionManager.new], the read of [session.id].  The
    route looks no session up, upgrades nothing and logs nothing. *)
Theorem post_route_call_order (ctx : Context) (w : W) :
  callee <$> trace (run env (post_session ctx) w) `prefix_of` [new_; session_id_].
Proof.
  unfold post_session. cbn. answers; by eexists.
Qed.

(** X5. What a fulfilled session route (either of the two) has written
    follows from the path it took.  If it called [join] or [reconnect], the
    context it leaves is the very one it got: nothing was written.  If it
    did not, then [SessionManager.get] was its only call, and either that
    found no session and the route left the context with status 404, or it
    found one, the request was no upgrade and the route left the context
    with status 400.  In no case is the body or a header touched. *)
Theorem session_routes_write_status_only (route : Context -> Prog Context)
    (ctx ctx' : Context) (w : W) :
  route = all_session_sessionId \/ route = all_session_sessionId_clientId ->
  completion (run env (route ctx) w) = Fulfilled ctx' ->
  (existsb enters_core (trace (run env (route ctx) w)) = true -> ctx' = ctx)
  /\ (existsb enters_core (trace (run env (route ctx) w)) = false ->
      (lookup_answer <$> trace (run env (route ctx) w) = [Some None]
       /\ ctx' = set_status 404 ctx)
      \/ (exists session,
            lookup_answer <$> trace (run env (route ctx) w) = [Some (Some session)]
            /\ ws ctx = None /\ ctx' = set_status 400 ctx))
  /\ body ctx' = body ctx /\ response_headers ctx' = response_headers ctx.
Proof.
  intros [-> | ->]; unfold all_session_sessionId, all_session_sessionId_clientId; cbn.
  all: destruct (env _ (SessionManager_get _) w) as [[[session|] | ?] w1]; cbn;
    [| intros [= <-]; repeat split; try discriminate; by left | discriminate].
  all: destruct (ws ctx) as [f|] eqn:Hws; cbn;
    [| intros [= <-]; repeat split; try discriminate; right; by exists session].
  all: answers; intros [= <-]; repeat split; (done || discriminate).
Qed.

(** A fulfilled POST route read one identity and answered with its text. *)
Lemma post_session_fulfilled (ctx : Context) (w : W) (text : jsstring) :
  body_of (completion (run env (post_session ctx) w)) = Some text ->
  exists i,
    omap identity_read (trace (run env (post_session ctx) w)) = [i]
    /\ text = stringify (JObject [(lit "sessionId", JString i)]).
Proof.
  unfold post_session. cbn.
  destruct (env _ (SessionManager_new _ _) w) as [[s | ?] w1]; cbn; [| discriminate].
  destruct (env _ (Session_id s) w1) as [[i | ?] w2]; cbn; [| discriminate].
  intros [= <-]. by exists i.
Qed.

End route_calls.

Section post_identity.
Import Js Controller Calls.

(** X6. The body of the POST answer determines the session: two fulfilled
    runs of the route (any contexts, any outside worlds) that answer with
    the same body read the same identity from the session they created. *)
Theorem post_body_determines_identity {W1 W2 : Type}
    (env1 : Environment W1) (env2 : Environment W2)
    (ctx1 ctx2 : Context) (w1 : W1) (w2 : W2) (text : jsstring) :
  body_of (completion (run env1 (post_session ctx1) w1)) = Some text ->
  body_of (completion (run env2 (post_session ctx2) w2)) = Some text ->
  exists i,
    omap identity_read (trace (run env1 (post_session ctx1) w1)) = [i]
    /\ omap identity_read (trace (run env2 (post_session ctx2) w2)) = [i].
Proof.
  intros H1 H2.
  apply post_session_fulfilled in H1 as (i1 & Hi1 & ->).
  apply post_session_fulfilled in H2 as (i2 & Hi2 & Heq).
  apply sessionId_text_inj in Heq as ->. by exists i2.
Qed.

End post_identity.

(** ** Sending a request *)
Section send_facts.
Import Js Api Request Notions.
Context (platform : Platform).

(** Reading [o[key]] and the own properties of [o]. *)
Lemma read_own (key : jsstring) (o : Object) (v : Value) :
  get_property key o = Some v -> read key o = own v.
Proof. unfold read. by intros ->. Qed.

Lemma read_own_inv (key : jsstring) (o : Object) (v : Value) :
  read key o = own v -> get_property key o = Some v.
Proof.
  unfold read. destruct (get_property key o); [by intros [= ->] |].
  by destruct (bool_decide _).
Qed.

Lemma read_undefined_inv (key : jsstring) (o : Object) :
  read key o = undefined -> get_property key o = None.
Proof. unfold read. by destruct (get_property key o). Qed.

Lemma read_nothing (key : jsstring) :
  key ∉ object_prototype_keys -> read key [] = undefined.
Proof. intros Hkey. unfold read. simpl. by rewrite bool_decide_false. Qed.

(** Reading a property after a write. *)
Lemma get_set_property (k key : jsstring) (v : Value) (o : Object) :
  get_property k (set_property key v o)
  = if decide (k = key) then Some v else get_property k o.
Proof.
  induction o as [|[k0 v0] o IH]; simpl.
  - destruct (decide (key = k)), (decide (k = key)); congruence.
  - destruct (decide (k0 = key)) as [-> | Hne]; simpl.
    + destruct (decide (key = k)), (decide (k = key)); congruence.
    + destruct (decide (k0 = k)) as [-> | Hne'].
      * destruct (decide (k = key)); congruence.
      * exact IH.
Qed.

Lemma set_property_keys (key : jsstring) (v : Value) (o : Object) :
  is_Some (get_property key o) -> (set_property key v o).*1 = o.*1.
Proof.
  induction o as [|[k0 v0] o IH]; simpl; intros Hsome.
  - by destruct Hsome.
  - destruct (decide (k0 = key)); rewrite !fmap_cons; [reflexivity |].
    by rewrite IH.
Qed.

(** A path loop that ran to its end found every declared parameter in order. *)
Lemma path_loop_accepts (pathInfo : ParamsDeclare) (params : Object) (url url' : jsstring) :
  path_loop platform pathInfo params url = Some (inr url') ->
  Forall (accepted params) pathInfo.
Proof.
  revert url; induction pathInfo as [|[key info] pathInfo IH]; intros url;
    cbn [path_loop]; [constructor |].
  destruct (read key params) as [|value|] eqn:Hread; [| | discriminate].
  - destruct (optional info) eqn:Hopt; [| discriminate].
    intros H. constructor; [| by eapply IH].
    unfold accepted. cbn [fst snd]. by rewrite Hread.
  - destruct (call_validator info key value) as [[v | e]|] eqn:Hv; try discriminate.
    intros H. constructor; [| by eapply IH].
    unfold accepted. cbn [fst snd]. rewrite Hread. by exists v.
Qed.

Lemma query_loop_accepts (queryInfo : ParamsDeclare) (params : Object)
    (acc qs : list jsstring) :
  query_loop platform queryInfo params acc = Some (inr qs) ->
  Forall (accepted params) queryInfo.
Proof.
  revert acc; induction queryInfo as [|[key info] queryInfo IH]; intros acc;
    cbn [query_loop]; [constructor |].
  destruct (read key params) as [|value|] eqn:Hread; [| | discriminate].
  - destruct (optional info) eqn:Hopt; [| discriminate].
    intros H. constructor; [| by eapply IH].
    unfold accepted. cbn [fst snd]. by rewrite Hread.
  - destruct (call_validator info key value) as [[v | e]|] eqn:Hv; try discriminate.
    destruct (encodeURIComponent _); [| discriminate].
    intros H. constructor; [| by eapply IH].
    unfold accepted. cbn [fst snd]. rewrite Hread. by exists v.
Qed.

(** The loop over the declared fields neither adds nor removes nor moves a
    key of [data], and leaves every undeclared field as it was. *)
Lemma data_loop_keys (dataInfo : ParamsDeclare) (o : Object) (d' : option Object)
    (f : option Failure) :
  data_loop dataInfo (Some o) = Some (d', f) ->
  exists o', d' = Some o' /\ o'.*1 = o.*1
    /\ forall k, k ∉ dataInfo.*1 -> get_property k o' = get_property k o.
Proof.
  revert o; induction dataInfo as [|[key info] dataInfo IH]; intros o; cbn [data_loop].
  - intros [= <- <-]. by exists o.
  - destruct (read key o) as [|value|] eqn:Hread; [| | discriminate].
    + destruct (optional info).
      * intros H. apply IH in H as (o' & -> & Hkeys & Hother).
        exists o'. split; [reflexivity |]. split; [exact Hkeys |].
        intros k Hk. rewrite fmap_cons in Hk.
        apply not_elem_of_cons in Hk as [_ Hk]. by apply Hother.
      * intros [= <- <-]. by exists o.
    + apply read_own_inv in Hread.
      destruct (call_validator info key value) as [[v | e]|] eqn:Hv; try discriminate.
      * intros H. apply IH in H as (o' & -> & Hkeys & Hother).
        exists o'. split; [reflexivity |]. split.
        -- rewrite Hkeys. apply set_property_keys. by rewrite Hread.
        -- intros k Hk. rewrite fmap_cons in Hk.
           apply not_elem_of_cons in Hk as [Hne Hk].
           rewrite (Hother k Hk), get_set_property. by destruct (decide (k = key)).
      * intros [= <- <-]. by exists o.
Qed.

(** When the loop over the declared fields runs to its end, every declared
    field that [data] had holds what its validator returned for it. *)
Lemma data_loop_writes (dataInfo : ParamsDeclare) (o o' : Object) :
  data_loop dataInfo (Some o) = Some (Some o', None) ->
  NoDup dataInfo.*1 ->
  forall key info value,
    (key, info) ∈ dataInfo -> get_property key o = Some value ->
    exists v, call_validator info key value = Some (Returned v)
              /\ get_property key o' = Some v.
Proof.
  revert o; induction dataInfo as [|[k i] dataInfo IH]; intros o Hloop Hnodup key info value Hin;
    [by apply elem_of_nil in Hin |].
  rewrite fmap_cons in Hnodup. apply NoDup_cons in Hnodup as [Hfresh Hnodup].
  cbn [data_loop] in Hloop.
  destruct (read k o) as [|value0|] eqn:Hread; [| | discriminate].
  - destruct (optional i); [| discriminate].
    apply elem_of_cons in Hin as [[= -> ->] | Hin].
    + apply read_undefined_inv in Hread. congruence.
    + by eapply IH.
  - apply read_own_inv in Hread.
    destruct (call_validator i k value0) as [[v0 | e]|] eqn:Hv; try discriminate.
    apply elem_of_cons in Hin as [[= -> ->] | Hin]; intros Hget.
    + assert (value = value0) as -> by congruence.
      exists v0. split; [exact Hv |].
      destruct (data_loop_keys _ _ _ _ Hloop) as (o'' & [= <-] & _ & Hother).
      rewrite (Hother k Hfresh), get_set_property. by rewrite decide_True.
    + eapply IH; [exact Hloop | exact Hnodup | exact Hin |].
      rewrite get_set_property, decide_False; [exact Hget |].
      intros ->. apply Hfresh. apply list_elem_of_fmap. by exists (k, info).
Qed.

Lemma data_loop_supplied (dataInfo : ParamsDeclare) (data d' : option Object) :
  data_loop dataInfo data = Some (d', None) ->
  dataInfo = [] \/ exists o, data = Some o /\ Forall (supplied o) dataInfo.
Proof.
  destruct dataInfo as [|entry dataInfo]; [by left | right].
  destruct data as [o|]; [| destruct entry; discriminate].
  exists o. split; [reflexivity |].
  revert o H. generalize (entry :: dataInfo). clear.
  intros dataInfo. induction dataInfo as [|[key info] dataInfo IH]; intros o;
    cbn [data_loop]; [constructor |].
  destruct (read key o) as [|value|] eqn:Hread; [| | discriminate].
  - destruct (optional info) eqn:Hopt; [| discriminate].
    intros H. constructor; [| by apply IH].
    intros Hreq. simpl in Hreq. congruence.
  - apply read_own_inv in Hread.
    destruct (call_validator info key value) as [[v | e]|] eqn:Hv; try discriminate.
    intros H. constructor.
    + intros _. simpl. by rewrite Hread.
    + apply IH in H. eapply Forall_impl; [exact H |].
      intros [k i] Hs Hreq. specialize (Hs Hreq). simpl in *.
      rewrite get_set_property in Hs. destruct (decide (k = key)) as [-> |]; [| done].
      by rewrite Hread.
Qed.

Lemma prepare_request (this : ApiBuilder) (params : Object) (data : option Object)
    (p : Prepared) (req : jsstring * RequestInit) :
  prepare platform this params data = Some p -> outcome p = inr req ->
  Forall (accepted params) (pathInfo this)
  /\ Forall (accepted params) (queryInfo this)
  /\ forall declared, dataInfo this = Some declared ->
       declared = [] \/ exists o, data = Some o /\ Forall (supplied o) declared.
Proof.
  unfold prepare.
  destruct (path_loop _ _ _ _) as [[f | url']|] eqn:Hpath; try discriminate.
  { intros [= <-]; discriminate. }
  destruct (query_loop _ _ _ _) as [[f | qs]|] eqn:Hquery; try discriminate.
  { intros [= <-]; discriminate. }
  destruct (dataInfo this) as [declared|] eqn:Hdecl.
  - destruct (data_loop declared data) as [[d' [f|]]|] eqn:Hdata; try discriminate.
    { intros [= <-]; discriminate. }
    intros _ _. split; [by eapply path_loop_accepts |].
    split; [by eapply query_loop_accepts |].
    intros ? [= <-]. by eapply data_loop_supplied.
  - intros _ _. split; [by eapply path_loop_accepts |].
    split; [by eapply query_loop_accepts |]. discriminate.
Qed.

(** A run that fetched [req] was prepared with [req]. *)
Lemma send_fetches {R : Type} (this : ApiBuilder) (params : Object) (data : option Object)
    (t : Task R R) {W : Type} (net : Network R W) (w : W) (req : jsstring * RequestInit) :
  send platform this params data = Some t ->
  fetches (perform net t w).1.1 req ->
  exists p, prepare platform this params data = Some p /\ outcome p = inr req.
Proof.
  unfold send. destruct (prepare platform this params data) as [[d [f | [url init]]]|];
    try discriminate; intros [= <-].
  - intros (h & Hin & _). simpl in Hin. by apply elem_of_nil in Hin.
  - intros (h & Hin & Hreq). eexists. split; [reflexivity |]. simpl. f_equal.
    unfold exchange in Hin. simpl in Hin.
    destruct (net _ (fetch url init) w) as [[response | err] w1]; simpl in Hin.
    + destruct (400 <=? status response)%Z; simpl in Hin.
      * destruct (net _ (json_as_error response) w1) as [[[[c|] m] | err] w2];
          simpl in Hin;
          repeat (apply elem_of_cons in Hin as [-> | Hin]; [by simplify_eq/= |]);
          by apply elem_of_nil in Hin.
      * destruct (net _ (json_as_response response) w1) as [[body | err] w2]; simpl in Hin;
          repeat (apply elem_of_cons in Hin as [-> | Hin]; [by simplify_eq/= |]);
          by apply elem_of_nil in Hin.
    + repeat (apply elem_of_cons in Hin as [-> | Hin]; [by simplify_eq/= |]);
        by apply elem_of_nil in Hin.
Qed.

Lemma send_fetches_request {R W : Type} (this : ApiBuilder) (params : Object)
    (data : option Object) (t : Task R R) (net : Network R W) (w : W)
    (req : jsstring * RequestInit) :
  send platform this params data = Some t ->
  fetches (perform net t w).1.1 req ->
  t = exchange req.1 req.2.
Proof.
  intros Hsend Hfetch.
  destruct (send_fetches this params data t net w req Hsend Hfetch) as (p & Hp & Hreq).
  unfold send in Hsend. rewrite Hp in Hsend. destruct p as [d o]. simpl in Hreq.
  subst o. destruct req. by injection Hsend as <-.
Qed.

(** X11. For arguments of the declared types: if a run of [send] fetches at
    all, then every declared path and query parameter was either an own
    property of [params] that its validator passed, or read as [undefined]
    (neither own nor inherited from [Object.prototype]) and optional, and
    every required field of a declared body was an own property of
    [data]: no request leaves with a required parameter missing or a
    validator unhappy. *)
Theorem request_needs_every_parameter {R W : Type} (this : ApiBuilder) (params : Object)
    (data : option Object) (t : Task R R) (net : Network R W) (w : W)
    (req : jsstring * RequestInit) :
  send platform this params data = Some t ->
  fetches (perform net t w).1.1 req ->
  Forall (accepted params) (pathInfo this)
  /\ Forall (accepted params) (queryInfo this)
  /\ forall declared, dataInfo this = Some declared ->
       declared = [] \/ exists o, data = Some o /\ Forall (supplied o) declared.
Proof.
  intros Hsend Hfetch.
  destruct (send_fetches this params data t net w req Hsend Hfetch) as (p & Hp & Hreq).
  by eapply prepare_request.
Qed.

(** One declared parameter out of order is enough for [send] to throw
    before the network. *)
Lemma not_accepted_throws {R : Type} (this : ApiBuilder) (params : Object)
    (data : option Object) (t : Task R R) (entry : jsstring * ParamInfo) :
  send platform this params data = Some t ->
  entry ∈ pathInfo this ++ queryInfo this ->
  ~ accepted params entry ->
  exists f, t = Throw f.
Proof.
  unfold send.
  destruct (prepare platform this params data) as [[d [f | [url init]]]|] eqn:Hp;
    try discriminate; intros [= <-] Hin Hno; [by exists f | exfalso].
  destruct (prepare_request this params data _ (url, init) Hp eq_refl) as (Hpath & Hquery & _).
  apply Hno. apply elem_of_app in Hin as [Hin | Hin].
  - by eapply (proj1 (Forall_forall _ _) Hpath).
  - by eapply (proj1 (Forall_forall _ _) Hquery).
Qed.

(** X13. A path or query parameter declared with [validateNonEmpty] and
    supplied as a text of white space only stops [send] before the
    network: the task throws without awaiting or logging anything. *)
Theorem blank_parameter_never_sent {R W : Type} (this : ApiBuilder) (params : Object)
    (data : option Object) (t : Task R R) (net : Network R W) (w : W)
    (key text : jsstring) (opt : bool) :
  send platform this params data = Some t ->
  (key, {| type := string_name; validator := validateNonEmpty; optional := opt |})
    ∈ pathInfo this ++ queryInfo this ->
  get_property key params = Some (VString text) ->
  Forall (fun c => is_white_space c = true) text ->
  exists f, t = Throw f /\ perform net t w = ([], thrown f, w).
Proof.
  intros Hsend Hin Hget Hblank.
  destruct (not_accepted_throws this params data t _ Hsend Hin) as [f ->].
  - unfold accepted. cbn [fst snd]. rewrite (read_own _ _ _ Hget). intros [v Hv].
    simpl in Hv. unfold validateNonEmpty in Hv. rewrite test_blank in Hv.
    apply all_white_space in Hblank. rewrite Hblank in Hv. discriminate.
  - by exists f.
Qed.

Lemma path_loop_nothing_supplied (pathInfo : ParamsDeclare) (url : jsstring)
    (key : jsstring) (info : ParamInfo) :
  plain_keys pathInfo ->
  List.find required pathInfo = Some (key, info) ->
  path_loop platform pathInfo [] url
  = Some (inl (failed (APIError (-2) (lit "Missing path '" ++ key ++ lit "'")))).
Proof.
  revert url; induction pathInfo as [|[k i] pathInfo IH]; intros url Hplain;
    cbn [path_loop List.find]; [discriminate |].
  apply Forall_cons in Hplain as [Hk Hplain]. cbn [fst] in Hk.
  rewrite (read_nothing _ Hk).
  unfold required at 1. cbn [fst snd]. destruct (optional i); cbn [negb].
  - intros H. by apply IH.
  - by intros [= -> ->].
Qed.

Lemma path_loop_all_optional (pathInfo : ParamsDeclare) (url : jsstring) :
  plain_keys pathInfo ->
  List.find required pathInfo = None ->
  exists url', path_loop platform pathInfo [] url = Some (inr url').
Proof.
  revert url; induction pathInfo as [|[k i] pathInfo IH]; intros url Hplain;
    cbn [path_loop List.find]; [by eexists |].
  apply Forall_cons in Hplain as [Hk Hplain]. cbn [fst] in Hk.
  rewrite (read_nothing _ Hk).
  unfold required at 1. cbn [fst snd]. destruct (optional i); cbn [negb]; [| discriminate].
  intros H. by apply IH.
Qed.

Lemma query_loop_nothing_supplied (queryInfo : ParamsDeclare) (acc : list jsstring)
    (key : jsstring) (info : ParamInfo) :
  plain_keys queryInfo ->
  List.find required queryInfo = Some (key, info) ->
  query_loop platform queryInfo [] acc
  = Some (inl (failed (APIError (-2) (lit "Missing query param '" ++ key ++ lit "'")))).
Proof.
  revert acc; induction queryInfo as [|[k i] queryInfo IH]; intros acc Hplain;
    cbn [query_loop List.find]; [discriminate |].
  apply Forall_cons in Hplain as [Hk Hplain]. cbn [fst] in Hk.
  rewrite (read_nothing _ Hk).
  unfold required at 1. cbn [fst snd]. destruct (optional i); cbn [negb].
  - intros H. by apply IH.
  - by intros [= -> ->].
Qed.

(** X12. Let no declared path key name a member of [Object.prototype].
    With an empty [params] object [send] then throws InvalidParameter, -2,
    naming the first required path parameter in the enumeration order of
    the declaration ([for ... in]); when every path parameter is optional
    and no declared query key names such a member either, it names the first
    required query parameter, in the enumeration order of that declaration. *)
Theorem nothing_supplied {R : Type} (this : ApiBuilder) (data : option Object)
    (key : jsstring) (info : ParamInfo) :
  plain_keys (pathInfo this) ->
  (List.find required (pathInfo this) = Some (key, info) ->
   send (R := R) platform this [] data
   = Some (Throw (failed (APIError (-2) (lit "Missing path '" ++ key ++ lit "'")))))
  /\ (plain_keys (queryInfo this) ->
      List.find required (pathInfo this) = None ->
      List.find required (queryInfo this) = Some (key, info) ->
      send (R := R) platform this [] data
      = Some (Throw (failed (APIError (-2)
                               (lit "Missing query param '" ++ key ++ lit "'"))))).
Proof.
  intros Hpath. split.
  - intros H. unfold send, prepare.
    by rewrite (path_loop_nothing_supplied _ _ _ _ Hpath H).
  - intros Hquery Hp Hq. unfold send, prepare.
    destruct (path_loop_all_optional _ (url this) Hpath Hp) as [url' ->].
    by rewrite (query_loop_nothing_supplied _ _ _ _ Hquery Hq).
Qed.

Section exchange.
Context {R W : Type} (net : Network R W).

(** X18. [send] resolves only in one way: [fetch] was fulfilled with a
    status below 400 and [response.json()] was fulfilled; what [send]
    resolves with is what [json()] gave, and nothing else was awaited or
    logged. *)
Theorem resolves_only_below_400 (this : ApiBuilder) (params : Object)
    (data : option Object) (t : Task R R) (w : W) (a : R) :
  send platform this params data = Some t ->
  (perform net t w).1.2 = resolved a ->
  exists url init response,
    (perform net t w).1.1
    = [awaited (fetch url init) (fulfilled response);
       awaited (json_as_response response) (fulfilled a)]
    /\ (status response < 400)%Z.
Proof.
  unfold send. destruct (prepare platform this params data) as [[d [f | [url init]]]|];
    try discriminate; intros [= <-]; [discriminate |].
  unfold exchange. simpl.
  destruct (net _ (fetch url init) w) as [[response | err] w1]; simpl; [| discriminate].
  destruct (Z.leb_spec 400 (status response)); simpl.
  - destruct (net _ (json_as_error response) w1) as [[[[c|] m] | err] w2]; discriminate.
  - destruct (net _ (json_as_response response) w1) as [[body | err] w2]; simpl;
      [| discriminate].
    intros [= <-]. by exists url, init, response.
Qed.

(** X19. Once [send] has fetched, what it throws is one of four things:
    the APIError NetworkFailure, -3, when [fetch] was rejected (the reason
    is logged, the body never read); the APIError ParseError, -4, when
    [json()] was rejected; for a status of 400 or above whose body was
    read and has a [code], an APIError with that code and the [msg] of the
    body (an empty message if there is none), after a console warning with
    the code in hexadecimal; and for such a body without a [code] the
    engine's TypeError, with nothing logged. *)
Theorem failures_after_fetch (this : ApiBuilder) (params : Object)
    (data : option Object) (t : Task R R) (w : W) (f : Failure)
    (req : jsstring * RequestInit) :
  send platform this params data = Some t ->
  fetches (perform net t w).1.1 req ->
  (perform net t w).1.2 = thrown f ->
  (f = failed (APIError (-3) (lit "Failed to send request."))
   /\ exists err, (perform net t w).1.1
                  = [awaited (fetch req.1 req.2) (rejected err); logged (console_error err)])
  \/ (f = failed (APIError (-4) (lit "Failed to parse response body."))
      /\ exists err, last (perform net t w).1.1 = Some (logged (console_error err)))
  \/ (exists response body c,
        (400 <= status response)%Z
        /\ code body = Some c
        /\ f = failed (APIError c (default [] (msg body)))
        /\ (perform net t w).1.1
           = [awaited (fetch req.1 req.2) (fulfilled response);
              awaited (json_as_error response) (fulfilled body);
              logged (console_warn (lit "Server response error: " ++ toString16 c
                                      ++ lit ": " ++ default (lit "undefined") (msg body)))])
  \/ (exists response body,
        (400 <= status response)%Z
        /\ code body = None
        /\ f = failed TypeError
        /\ (perform net t w).1.1
           = [awaited (fetch req.1 req.2) (fulfilled response);
              awaited (json_as_error response) (fulfilled body)]).
Proof.
  intros Hsend Hfetch.
  assert (t = exchange req.1 req.2) as ->
    by exact (send_fetches_request this params data t net w req Hsend Hfetch).
  clear Hsend Hfetch.
  destruct req as [url init]. unfold exchange. simpl.
  destruct (net _ (fetch url init) w) as [[response | err] w1]; simpl.
  - destruct (Z.leb_spec 400 (status response)); simpl.
    + destruct (net _ (json_as_error response) w1) as [[[[c|] m] | err] w2]; simpl;
        intros [= <-].
      * right. right. left. by exists response, {| code := Some c; msg := m |}, c.
      * right. right. right. by exists response, {| code := None; msg := m |}.
      * right. left. split; [reflexivity |]. by exists err.
    + destruct (net _ (json_as_response response) w1) as [[body | err] w2]; simpl;
        intros [= <-].
      right. left. split; [reflexivity |]. by exists err.
  - intros [= <-]. left. split; [reflexivity |]. by exists err.
Qed.

End exchange.
Lemma strip_prefix_splits (p s r : jsstring) : strip_prefix p s = Some r -> s = p ++ r.
Proof.
  revert s; induction p as [|a p IH]; intros [|b s]; simpl; try congruence.
  destruct (N.eqb_spec a b) as [-> |]; [| discriminate].
  intros H. by rewrite (IH _ H).
Qed.

Lemma find_unfold (needle s : jsstring) :
  find needle s
  = match strip_prefix needle s with
    | Some rest => Some ([], rest)
    | None =>
        match s with
        | [] => None
        | c :: s' =>
            match find needle s' with
            | Some (before, rest) => Some (c :: before, rest)
            | None => None
            end
        end
    end.
Proof. by destruct s. Qed.

(** What [find] hands back are the two sides of an occurrence. *)
Lemma find_splits (needle s before rest : jsstring) :
  find needle s = Some (before, rest) -> s = before ++ needle ++ rest.
Proof.
  revert before; induction s as [|c s IH]; intros before; rewrite find_unfold.
  - destruct (strip_prefix needle []) as [r|] eqn:Hp; [| discriminate].
    intros [= <- <-]. exact (strip_prefix_splits _ _ _ Hp).
  - destruct (strip_prefix needle (c :: s)) as [r|] eqn:Hp.
    + intros [= <- <-]. exact (strip_prefix_splits _ _ _ Hp).
    + destruct (find needle s) as [[b r]|]; [| discriminate].
      intros [= <- <-]. by rewrite (IH b eq_refl).
Qed.

(** A replacement text without a dollar sign stands for itself. *)
Lemma get_substitution_plain (matched before rest template : jsstring) :
  36 ∉ template -> get_substitution matched before rest template = template.
Proof.
  induction template as [|c t IH]; [reflexivity |]. simpl.
  intros Hno. apply not_elem_of_cons in Hno as [Hc Ht].
  destruct (N.eqb_spec c 36) as [-> |]; [done |]. by rewrite IH.
Qed.

(** No occurrence of [needle] starts before the one [find] hands back. *)
Lemma find_first (needle s before rest : jsstring) (i : nat) :
  find needle s = Some (before, rest) ->
  (i < length before)%nat ->
  strip_prefix needle (drop i s) = None.
Proof.
  revert before i; induction s as [|c s IH]; intros before i; rewrite find_unfold.
  - destruct (strip_prefix needle []); [| discriminate].
    intros [= <- <-]. simpl. lia.
  - destruct (strip_prefix needle (c :: s)) as [r|] eqn:Hp.
    + intros [= <- <-]. simpl. lia.
    + destruct (find needle s) as [[b r]|] eqn:Hfind; [| discriminate].
      intros [= <- <-] Hi. destruct i as [|i]; [exact Hp |].
      simpl. apply (IH b i eq_refl). simpl in Hi. lia.
Qed.

(** X14. A supplied path parameter whose validated text holds no dollar
    sign takes the place of the first occurrence of its placeholder, as it
    is (it is not percent-encoded) and only there, and the loop goes on
    with the next declared parameter; if the url has no such placeholder
    the url stays as it was. *)
Theorem path_value_is_inserted_verbatim (key : jsstring) (info : ParamInfo)
    (declared : ParamsDeclare) (params : Object) (value v : Value) (url : jsstring) :
  get_property key params = Some value ->
  call_validator info key value = Some (Returned v) ->
  36 ∉ toString platform v ->
  path_loop platform ((key, info) :: declared) params url
  = path_loop platform declared params
      match find (placeholder key) url with
      | Some (before, rest) => before ++ toString platform v ++ rest
      | None => url
      end
  /\ forall before rest,
       find (placeholder key) url = Some (before, rest) ->
       url = before ++ placeholder key ++ rest
       /\ forall i, (i < length before)%nat ->
            strip_prefix (placeholder key) (drop i url) = None.
Proof.
  intros Hget Hv Hplain. split.
  - cbn [path_loop]. rewrite (read_own _ _ _ Hget), Hv. unfold replace.
    destruct (find (placeholder key) url) as [[before rest]|]; [| reflexivity].
    by rewrite get_substitution_plain.
  - intros before rest Hfind. split; [by apply find_splits |].
    intros i Hi. by eapply find_first.
Qed.

(** [queryParams] grows by one entry per supplied declared key. *)
Lemma query_loop_entries (queryInfo : ParamsDeclare) (params : Object)
    (acc qs : list jsstring) :
  query_loop platform queryInfo params acc = Some (inr qs) ->
  exists new, qs = acc ++ new
    /\ Forall2 (query_entry platform params) new
         (filter (fun entry => is_Some (get_property entry.1 params)) queryInfo).
Proof.
  revert acc; induction queryInfo as [|[key info] queryInfo IH]; intros acc;
    cbn [query_loop].
  - intros [= <-]. exists []. by rewrite app_nil_r.
  - rewrite filter_cons. cbn [fst snd].
    destruct (read key params) as [|value|] eqn:Hread; [| | discriminate].
    + apply read_undefined_inv in Hread. rewrite Hread.
      destruct (optional info); [| discriminate].
      intros H. apply IH in H as (new & -> & Hnew).
      exists new. split; [reflexivity |].
      rewrite decide_False; [exact Hnew |]. by intros [? ?].
    + apply read_own_inv in Hread. rewrite Hread.
      destruct (call_validator info key value) as [[v | e]|] eqn:Hv; try discriminate.
      destruct (encodeURIComponent _) as [encoded|] eqn:Henc; [| discriminate].
      intros H. apply IH in H as (new & -> & Hnew).
      exists ((key ++ [61] ++ encoded) :: new). split; [by rewrite <- app_assoc |].
      rewrite decide_True by done. constructor; [| exact Hnew].
      unfold query_entry. cbn [fst snd]. by exists value, v, encoded.
Qed.

(** The url of a prepared request: the path loop's url and the query entries. *)
Lemma prepare_query_string (this : ApiBuilder) (params : Object) (data : option Object)
    (p : Prepared) (url : jsstring) (init : RequestInit) :
  prepare platform this params data = Some p ->
  outcome p = inr (url, init) ->
  exists path_url qs,
    path_loop platform (pathInfo this) params (Api.url this) = Some (inr path_url)
    /\ Forall2 (query_entry platform params) qs
         (filter (fun entry => is_Some (get_property entry.1 params)) (queryInfo this))
    /\ url = match qs with
             | [] => path_url
             | _ :: _ => path_url ++ [63] ++ join [38] qs
             end.
Proof.
  unfold prepare.
  destruct (path_loop _ _ _ _) as [[f | path_url]|] eqn:Hpath; try discriminate.
  { intros [= <-]; discriminate. }
  destruct (query_loop _ _ _ _) as [[f | qs]|] eqn:Hquery; try discriminate.
  { intros [= <-]; discriminate. }
  apply query_loop_entries in Hquery as (new & -> & Hnew). simpl in *.
  destruct (match dataInfo this with Some d => data_loop d data | None => Some (data, None) end)
    as [[d' [f|]]|]; try discriminate.
  { intros [= <-]; discriminate. }
  intros [= <-] [= <- _]. by exists path_url, new.
Qed.

(** X15. For arguments of the declared types (so no declared key is read
    from [Object.prototype]): the url [send] fetches is the url the path
    loop left, followed, if [params] has a declared query key as an own
    property, by a question mark and one [key=value] entry per such key,
    in the enumeration order of the declaration, joined by ampersands; the
    value is the validated value percent-encoded, the key is as declared,
    and properties of [params] that are not declared add nothing. *)
Theorem query_string_entries {R W : Type} (this : ApiBuilder) (params : Object)
    (data : option Object) (t : Task R R) (net : Network R W) (w : W)
    (url : jsstring) (init : RequestInit) :
  send platform this params data = Some t ->
  fetches (perform net t w).1.1 (url, init) ->
  exists path_url qs,
    path_loop platform (pathInfo this) params (Api.url this) = Some (inr path_url)
    /\ Forall2 (query_entry platform params) qs
         (filter (fun entry => is_Some (get_property entry.1 params)) (queryInfo this))
    /\ url = match qs with
             | [] => path_url
             | _ :: _ => path_url ++ [63] ++ join [38] qs
             end.
Proof.
  intros Hsend Hfetch.
  destruct (send_fetches this params data t net w (url, init) Hsend Hfetch)
    as (p & Hp & Hreq).
  by eapply prepare_query_string.
Qed.

(** X16. For arguments of the declared types (so no declared field is read
    from [Object.prototype]): up to [fetch], [send] never adds, removes or
    reorders a key of the caller's [data], and a field that is not
    declared keeps its value, also when [send] throws on the way.  When
    [send] gets as far as the request and the declared keys are distinct,
    every declared field that [data] had has been overwritten in place
    with what its validator returned for the value it held. *)
Theorem send_keeps_data_keys (this : ApiBuilder) (params : Object) (o : Object)
    (p : Prepared) :
  prepare platform this params (Some o) = Some p ->
  exists o',
    data_after p = Some o'
    /\ o'.*1 = o.*1
    /\ (forall k, k ∉ (default [] (dataInfo this)).*1 ->
          get_property k o' = get_property k o)
    /\ (forall req declared,
          outcome p = inr req -> dataInfo this = Some declared -> NoDup declared.*1 ->
          forall key info value,
            (key, info) ∈ declared -> get_property key o = Some value ->
            exists v, call_validator info key value = Some (Returned v)
                      /\ get_property key o' = Some v).
Proof.
  unfold prepare.
  destruct (path_loop _ _ _ _) as [[f | path_url]|]; try discriminate.
  { intros [= <-]. exists o. by repeat split. }
  destruct (query_loop _ _ _ _) as [[f | qs]|]; try discriminate.
  { intros [= <-]. exists o. by repeat split. }
  destruct (dataInfo this) as [declared|]; simpl.
  - destruct (data_loop declared (Some o)) as [[d' f]|] eqn:Hdata; [| discriminate].
    destruct (data_loop_keys _ _ _ _ Hdata) as (o' & -> & Hkeys & Hother).
    destruct f; intros [= <-]; exists o'; (repeat split; [done .. |]); simpl;
      [discriminate |].
    intros req declared' _ [= <-] Hnodup. by eapply data_loop_writes.
  - intros [= <-]. exists o. by repeat split.
Qed.

(** X10. The function [api(method, url).response()] gives, called with
    any [params] and [data], goes straight to the network: it fetches
    [url] as given, with that method, the JSON content type, no redirect
    option, and as body the JSON text of [data] for POST, PUT and PATCH,
    no body for the other methods. *)
Theorem bare_api_request {R : Type} (method : HTTPMethods) (url : jsstring) (h : Heap)
    (params : Object) (data : option Object) :
  let h1 := (api method url h).2 in
  let h2 := (response (length h) h1).2 in
  (response (length h) h1).1 = Returned (S (length h))
  /\ call (R := R) platform (S (length h)) params data h2
     = Some (exchange url
               {| init_method := method;
                  init_headers := [(lit "Content-Type", lit "application/json")];
                  init_redirect := None;
                  init_body := match method with
                               | POST | PUT | PATCH => stringify_object platform <$> data
                               | _ => None
                               end |}).
Proof.
  destruct method; unfold api, response, with_this, new_ApiBuilder, call; cbn [fst snd];
    rewrite lookup_app_r, Nat.sub_diag by lia; cbn;
    rewrite length_app, Nat.add_1_r;
    (split; [reflexivity |]);
    rewrite lookup_app_r by (rewrite length_app; simpl; lia);
    rewrite length_app, Nat.add_1_r, Nat.sub_diag; cbn; by destruct data.
Qed.

(** X8. [path], [query], [body], [response] and [api] leave every builder
    that exists as it is: they only add one. *)
Theorem builders_are_persistent (h : Heap) (this a : Ref) (x : ApiBuilder)
    (declared : SimpleParamsDeclare) (method : HTTPMethods) (url : jsstring) :
  h !! a = Some x ->
  (path this declared h).2 !! a = Some x
  /\ (query this declared h).2 !! a = Some x
  /\ (body this declared h).2 !! a = Some x
  /\ (response this h).2 !! a = Some x
  /\ (api method url h).2 !! a = Some x.
Proof.
  intros Ha.
  assert (forall m u p q d, (new_ApiBuilder m u p q d h).2 !! a = Some x) as Hnew.
  { intros. unfold new_ApiBuilder. simpl. by apply lookup_app_l_Some. }
  unfold path, query, body, response, with_this, api.
  repeat split; try (destruct (h !! this) as [b|]; [| exact Ha]); try apply Hnew.
  - destruct (Api.method b); try apply Hnew; exact Ha.
  - destruct method; apply Hnew.
Qed.

(** X9. [redirect] writes the option into [this] itself, returns [this]
    and touches no other builder; but [response()] binds [send] to a new
    builder made without it, so the function it gives fetches with no
    redirect option (and with the method of [this]). *)
Theorem redirect_is_lost_by_response {R W : Type} (h : Heap) (this : Ref) (b : ApiBuilder)
    (chosen : RedirectOption) (params : Object) (data : option Object) (t : Task R R)
    (net : Network R W) (w : W) (req : jsstring * RequestInit) :
  h !! this = Some b ->
  let h1 := (redirect this chosen h).2 in
  let h2 := (response this h1).2 in
  ((redirect this chosen h).1 = Returned this
   /\ (redirectOption <$> h1 !! this) = Some (Some chosen)
   /\ length h1 = length h
   /\ forall a, a <> this -> h1 !! a = h !! a)
  /\ ((response this h1).1 = Returned (length h)
      /\ (call platform (length h) params data h2 = Some t ->
          fetches (perform net t w).1.1 req ->
          init_redirect req.2 = None /\ init_method req.2 = Api.method b)).
Proof.
  intros Hthis h1 h2.
  assert (this < length h)%nat as Hlt by (by eapply lookup_lt_Some).
  assert (h1 = <[this := {| Api.method := Api.method b; Api.url := Api.url b;
                            pathInfo := pathInfo b; queryInfo := queryInfo b;
                            dataInfo := dataInfo b; redirectOption := Some chosen |}]> h)
    as Hh1.
  { subst h1. unfold redirect, with_this. by rewrite Hthis. }
  split.
  - repeat split.
    + unfold redirect, with_this. by rewrite Hthis.
    + rewrite Hh1, list_lookup_insert_eq by exact Hlt. reflexivity.
    + rewrite Hh1. apply length_insert.
    + intros a Ha. rewrite Hh1. by apply list_lookup_insert_ne.
  - assert (response this h1
            = (Returned (length h),
               h1 ++ [{| Api.method := Api.method b; Api.url := Api.url b;
                         pathInfo := pathInfo b; queryInfo := queryInfo b;
                         dataInfo := dataInfo b; redirectOption := None |}])) as Hresp.
    { unfold response, with_this. rewrite Hh1, list_lookup_insert_eq by exact Hlt.
      unfold new_ApiBuilder. simpl. by rewrite length_insert. }
    subst h2. rewrite Hresp. split; [reflexivity |]. simpl.
    unfold call. rewrite lookup_app_r by (rewrite Hh1, length_insert; lia).
    rewrite Hh1, length_insert, Nat.sub_diag. simpl.
    intros Hsend Hfetch.
    destruct (send_fetches _ params data t net w req Hsend Hfetch)
      as (p & Hp & Hreq).
    revert Hp Hreq. unfold prepare. simpl.
    destruct (path_loop _ _ _ _) as [[f | path_url]|]; try discriminate.
    { intros [= <-]; discriminate. }
    destruct (query_loop _ _ _ _) as [[f | qs]|]; try discriminate.
    { intros [= <-]; discriminate. }
    destruct (match dataInfo b with Some d => data_loop d data | None => Some (data, None) end)
      as [[d' [f|]]|]; try discriminate.
    { intros [= <-]; discriminate. }
    intros [= <-] [= <-]. by split.
Qed.

(** X17. A run of [send] either does nothing observable (it threw before
    the network) or starts with its one [fetch]: nothing is logged or
    parsed before it, and nothing is fetched after it. *)
Theorem one_fetch_and_first {R W : Type} (this : ApiBuilder) (params : Object)
    (data : option Object) (t : Task R R) (net : Network R W) (w : W) :
  send platform this params data = Some t ->
  (perform net t w).1.1 = []
  \/ exists url init s rest,
       (perform net t w).1.1 = awaited (fetch url init) s :: rest
       /\ omap fetched rest = [].
Proof.
  unfold send. destruct (prepare platform this params data) as [[d [f | [url init]]]|];
    try discriminate; intros [= <-]; [by left | right].
  unfold exchange. simpl.
  destruct (net _ (fetch url init) w) as [[response | err] w1]; simpl.
  - destruct (400 <=? status response)%Z; simpl.
    + destruct (net _ (json_as_error response) w1) as [[[[c|] m] | err] w2]; simpl;
        by eexists _, _, _, _.
    + destruct (net _ (json_as_response response) w1) as [[body | err] w2]; simpl;
        by eexists _, _, _, _.
  - by eexists _, _, _, _.
Qed.

End send_facts.

(** ** The added properties on the samples *)
Section routes_more_run.
Import Js Controller Calls.

Lemma join_only_after_bind_witness :
  trace (run Samples.outside (all_session_sessionId (Samples.request "room" "" true)) 0%nat)
    !! 4%nat
  = Some (event (Session_join (session_ref 1) (client_ref 2)) (Returns ()))
  /\ exists (f : Upgrade) (sock : WebSocket),
      ws (Samples.request "room" "" true) = Some f
      /\ take 4 (trace (run Samples.outside
                          (all_session_sessionId (Samples.request "room" "" true)) 0%nat))
         = [event (SessionManager_get (lit "room")) (Returns (Some (session_ref 1)));
            event (ctx_ws f) (Returns sock);
            event new_Client (Returns (client_ref 2));
            event (Client_bind (client_ref 2) sock) (Returns ())].
Proof.
  split; [reflexivity |].
  exact (proj2 (join_only_after_bind Samples.outside (Samples.request "room" "" true)
                  0%nat 4%nat _ (session_ref 1) (client_ref 2) eq_refl eq_refl)).
Defined.

(** A request to join "room" that comes in with status 200 is fulfilled
    with status 200 still; the same request without an upgrade is answered
    400. *)
Lemma session_routes_write_status_only_witness :
  let ctx := set_status 200 (Samples.request "room" "" true) in
  let plain := set_status 200 (Samples.request "room" "" false) in
  (exists ctx',
     completion (run Samples.outside (all_session_sessionId ctx) 0%nat) = Fulfilled ctx'
     /\ existsb enters_core (trace (run Samples.outside (all_session_sessionId ctx) 0%nat))
        = true
     /\ ctx' = ctx /\ response_status ctx' = 200%Z)
  /\ (exists ctx',
        completion (run Samples.outside (all_session_sessionId plain) 0%nat)
        = Fulfilled ctx'
        /\ ((lookup_answer
               <$> trace (run Samples.outside (all_session_sessionId plain) 0%nat)
             = [Some None]
             /\ ctx' = set_status 404 plain)
            \/ (exists session,
                  lookup_answer
                    <$> trace (run Samples.outside (all_session_sessionId plain) 0%nat)
                  = [Some (Some session)]
                  /\ ws plain = None /\ ctx' = set_status 400 plain))).
Proof.
  split.
  - eexists. split; [reflexivity |]. split; [reflexivity |]. split; [| reflexivity].
    exact (proj1
      (session_routes_write_status_only Samples.outside all_session_sessionId
         (set_status 200 (Samples.request "room" "" true)) _ 0%nat
         (or_introl eq_refl) eq_refl) eq_refl).
  - eexists. split; [reflexivity |].
    exact (proj1 (proj2
      (session_routes_write_status_only Samples.outside all_session_sessionId
         (set_status 200 (Samples.request "room" "" false)) _ 0%nat
         (or_introl eq_refl) eq_refl)) eq_refl).
Defined.

Lemma post_body_determines_identity_witness :
  body_of (completion (run Samples.outside (post_session (Samples.request "" "" false))
                         0%nat))
  = Some ([123; 34] ++ lit "sessionId" ++ [34; 58; 34] ++ lit "room" ++ [34; 125])
  /\ exists i,
      omap identity_read
        (trace (run Samples.outside (post_session (Samples.request "" "" false)) 0%nat))
      = [i]
      /\ omap identity_read
           (trace (run Samples.outside (post_session (Samples.request "x" "y" true))
                     7%nat))
         = [i].
Proof.
  split; [reflexivity |].
  exact (post_body_determines_identity Samples.outside Samples.outside
           (Samples.request "" "" false) (Samples.request "x" "y" true) 0%nat 7%nat
           _ eq_refl eq_refl).
Defined.

End routes_more_run.

Section send_run.
Import Js Api Request RequestSamples Notions.

Lemma builders_are_persistent_witness :
  Samples.builders !! 0%nat
  = Some {| method := GET; url := lit "/session/{id}"; pathInfo := []; queryInfo := [];
            dataInfo := None; redirectOption := None |}
  /\ (body 1%nat Samples.declared_body Samples.builders).2 !! 0%nat
     = Samples.builders !! 0%nat.
Proof.
  split; [reflexivity |].
  exact (proj1 (proj2 (proj2
    (builders_are_persistent Samples.builders 1%nat 0%nat _ Samples.declared_body
       GET [] eq_refl)))).
Defined.

(** The POST builder of the samples follows redirects; the function made
    from it after [redirect("manual")] fetches with no redirect option. *)
Lemma redirect_is_lost_by_response_witness :
  let h1 := (redirect 1%nat manual Samples.builders).2 in
  let made := call (R := jsstring) no_numbers 2%nat [] (Some []) (response 1%nat h1).2 in
  (redirectOption <$> h1 !! 1%nat) = Some (Some manual)
  /\ (exists t, made = Some t
        /\ (perform (server 200) t 0%nat).1.2 = resolved (lit "ok")
        /\ forall req, fetches (perform (server 200) t 0%nat).1.1 req ->
             init_redirect req.2 = None).
Proof.
  split; [reflexivity |].
  eexists. split; [reflexivity |]. split; [reflexivity |].
  intros req Hreq.
  exact (proj1 (proj2 (proj2
    (redirect_is_lost_by_response no_numbers Samples.builders 1%nat _ manual [] (Some [])
       _ (server 200) 0%nat req eq_refl)) eq_refl Hreq)).
Defined.

(** What [params[key]] reads on the sample: an own property, a key that is
    nowhere, and a key the object only inherits. *)
Example read_alice_in_room :
  read (lit "name") alice_in_room = own (VString (lit "alice"))
  /\ read (lit "tag") alice_in_room = undefined
  /\ read (lit "toString") alice_in_room = inherited.
Proof. vm_compute. by repeat split. Qed.

(** A declared key that [params] only inherits puts the call outside the
    declared types: the validator would be handed the inherited function. *)
Example inherited_key_is_outside :
  send (R := jsstring) no_numbers
    {| method := GET; url := lit "/{constructor}";
       pathInfo := simpleParam [(lit "constructor", by_name string_name)];
       queryInfo := []; dataInfo := None; redirectOption := None |}
    [] None
  = None.
Proof. reflexivity. Qed.

Lemma request_needs_every_parameter_witness :
  send (R := jsstring) no_numbers get_member alice_in_room None
  = Some (exchange member_request.1 member_request.2)
  /\ Forall (accepted alice_in_room) (pathInfo get_member)
  /\ Forall (accepted alice_in_room) (queryInfo get_member).
Proof.
  split; [reflexivity |].
  assert (fetches (perform (server 200)
                     (exchange (R := jsstring) member_request.1 member_request.2)
                     0%nat).1.1 member_request) as Hfetch.
  { eexists. split; [apply list_elem_of_here | reflexivity]. }
  destruct (request_needs_every_parameter no_numbers get_member alice_in_room None
              (exchange member_request.1 member_request.2) (server 200) 0%nat
              member_request eq_refl Hfetch) as (Hpath & Hquery & _).
  split; [exact Hpath | exact Hquery].
Defined.

Lemma nothing_supplied_witness :
  plain_keys (pathInfo get_member)
  /\ List.find required (pathInfo get_member)
     = Some (lit "sessionId",
             {| type := string_name; validator := validateByPass; optional := false |})
  /\ send (R := jsstring) no_numbers get_member [] None
     = Some (Throw (failed (APIError (-2) (lit "Missing path 'sessionId'")))).
Proof.
  assert (plain_keys (pathInfo get_member)) as Hplain
    by (apply (bool_decide_unpack _); vm_compute; exact I).
  split; [exact Hplain |]. split; [reflexivity |].
  exact (proj1 (nothing_supplied (R := jsstring) no_numbers get_member None
                  (lit "sessionId") _ Hplain) eq_refl).
Defined.

Lemma blank_parameter_never_sent_witness :
  get_property (lit "name") nobody_in_room = Some (VString (lit "  "))
  /\ exists f,
      send (R := jsstring) no_numbers get_member nobody_in_room None = Some (Throw f)
      /\ perform offline (Throw f : Task jsstring jsstring) 0%nat = ([], thrown f, 0%nat).
Proof.
  split; [reflexivity |].
  destruct (blank_parameter_never_sent no_numbers get_member nobody_in_room None
              (Throw (failed (APIError (-2) (lit "'name' cannot be empty"))))
              offline 0%nat (lit "name") (lit "  ") false eq_refl)
    as (f & Hf & Hrun).
  - simpl. apply list_elem_of_further, list_elem_of_here.
  - reflexivity.
  - repeat constructor.
  - exists f. split; [by rewrite <- Hf | by rewrite <- Hf].
Defined.

Lemma path_value_is_inserted_verbatim_witness :
  (36 ∉ lit "room")
  /\ path_loop no_numbers (pathInfo set_title) alice_in_room (url set_title)
     = Some (inr (lit "/session/" ++ lit "room" ++ lit "/title")).
Proof.
  assert (36 ∉ lit "room") as Hplain by (apply (bool_decide_unpack _); vm_compute; exact I).
  split; [exact Hplain |].
  exact (proj1 (path_value_is_inserted_verbatim no_numbers (lit "sessionId")
                  {| type := string_name; validator := validateByPass;
                     optional := false |}
                  [] alice_in_room (VString (lit "room")) (VString (lit "room"))
                  (url set_title) eq_refl eq_refl Hplain)).
Defined.

Lemma query_string_entries_witness :
  send (R := jsstring) no_numbers get_member alice_in_room None
  = Some (exchange member_request.1 member_request.2)
  /\ exists path_url qs,
      Forall2 (query_entry no_numbers alice_in_room) qs
        (filter (fun entry => is_Some (get_property entry.1 alice_in_room))
           (queryInfo get_member))
      /\ member_request.1 = match qs with
                            | [] => path_url
                            | _ :: _ => path_url ++ [63] ++ join [38] qs
                            end.
Proof.
  split; [reflexivity |].
  assert (fetches (perform (server 200)
                     (exchange (R := jsstring) member_request.1 member_request.2)
                     0%nat).1.1 member_request) as Hfetch.
  { eexists. split; [apply list_elem_of_here | reflexivity]. }
  destruct (query_string_entries no_numbers get_member alice_in_room None
              (exchange member_request.1 member_request.2) (server 200) 0%nat
              member_request.1 member_request.2 eq_refl Hfetch)
    as (path_url & qs & _ & Hqs & Hurl).
  by exists path_url, qs.
Defined.

Lemma send_keeps_data_keys_witness :
  exists o',
    data_after <$> prepare no_numbers set_title alice_in_room (Some new_title)
    = Some (Some o')
    /\ o'.*1 = [lit "note"; lit "title"]
    /\ get_property (lit "note") o' = Some (VString (lit "kept"))
    /\ exists v,
        validateNonEmpty (lit "title") (lit "Movie night") = Returned v
        /\ get_property (lit "title") o' = Some (VString v).
Proof.
  destruct (send_keeps_data_keys no_numbers set_title alice_in_room new_title _ eq_refl)
    as (o' & Hafter & Hkeys & Hother & Hwritten).
  exists o'. split; [by rewrite <- Hafter |]. split; [exact Hkeys |]. split.
  - apply Hother. apply (bool_decide_unpack _). vm_compute. exact I.
  - destruct (Hwritten _ _ eq_refl eq_refl
                (NoDup_singleton (lit "title"))
                (lit "title") _ (VString (lit "Movie night"))
                (list_elem_of_here _ _) eq_refl) as (v & Hv & Hget).
    vm_compute in Hv. injection Hv as <-.
    exists (lit "Movie night"). split; [reflexivity | exact Hget].
Defined.

Lemma one_fetch_and_first_witness :
  send (R := jsstring) no_numbers get_member alice_in_room None
  = Some (exchange member_request.1 member_request.2)
  /\ ((perform (server 500) (exchange (R := jsstring) member_request.1 member_request.2)
         0%nat).1.1 = []
      \/ exists url init s rest,
           (perform (server 500) (exchange (R := jsstring) member_request.1
                                    member_request.2) 0%nat).1.1
           = awaited (fetch url init) s :: rest
           /\ omap fetched rest = []).
Proof.
  split; [reflexivity |].
  exact (one_fetch_and_first no_numbers get_member alice_in_room None _ (server 500)
           0%nat eq_refl).
Defined.

Lemma resolves_only_below_400_witness :
  (perform (server 200) (exchange (R := jsstring) member_request.1 member_request.2)
     0%nat).1.2 = resolved (lit "ok")
  /\ exists url init response,
      (perform (server 200) (exchange (R := jsstring) member_request.1 member_request.2)
         0%nat).1.1
      = [awaited (fetch url init) (fulfilled response);
         awaited (json_as_response response) (fulfilled (lit "ok"))]
      /\ (status response < 400)%Z.
Proof.
  split; [reflexivity |].
  exact (resolves_only_below_400 no_numbers (server 200) get_member alice_in_room None
           _ 0%nat (lit "ok") eq_refl eq_refl).
Defined.

(** Behind [bad_gateway] the request for "alice" ends in a TypeError: the
    body of the 502 answer was read, has no [code], and nothing is logged. *)
Lemma failures_after_fetch_witness :
  let run := perform bad_gateway
               (exchange (R := jsstring) member_request.1 member_request.2) 0%nat in
  fetches run.1.1 member_request
  /\ run.1.2 = thrown (failed TypeError)
  /\ exists response body,
      (400 <= status response)%Z
      /\ code body = None
      /\ run.1.1
         = [awaited (fetch member_request.1 member_request.2) (fulfilled response);
            awaited (json_as_error response) (fulfilled body)].
Proof.
  assert (fetches (perform bad_gateway
                     (exchange (R := jsstring) member_request.1 member_request.2)
                     0%nat).1.1 member_request) as Hfetch.
  { eexists. split; [apply list_elem_of_here | reflexivity]. }
  split; [exact Hfetch |]. split; [reflexivity |].
  destruct (failures_after_fetch no_numbers bad_gateway get_member alice_in_room None
              (exchange member_request.1 member_request.2) 0%nat
              (failed TypeError) member_request eq_refl Hfetch eq_refl)
    as [[Hf _] | [[Hf _] | [(response & body & c & _ & _ & Hf & _)
                           | (response & body & Hstatus & Hcode & _ & Htrace)]]];
    try discriminate.
  by exists response, body.
Defined.

End send_run.

(** ** When a request is sent, and how builders combine *)
Section send_live.
Import Js Api Request Notions.
Context (platform : Platform).

Lemma path_loop_runs (pathInfo : ParamsDeclare) (params : Object) (url : jsstring) :
  Forall (accepted params) pathInfo ->
  exists url', path_loop platform pathInfo params url = Some (inr url').
Proof.
  revert url; induction pathInfo as [|[key info] pathInfo IH]; intros url Hall;
    cbn [path_loop]; [by eexists |].
  apply Forall_cons in Hall as [Hone Hall]. unfold accepted in Hone.
  cbn [fst snd] in Hone.
  destruct (read key params) as [|value|]; [| | done].
  - rewrite Hone. by apply IH.
  - destruct Hone as [v ->]. by apply IH.
Qed.

Lemma query_loop_runs (queryInfo : ParamsDeclare) (params : Object) (acc : list jsstring) :
  Forall (encodable platform params) queryInfo ->
  exists qs, query_loop platform queryInfo params acc = Some (inr qs).
Proof.
  revert acc; induction queryInfo as [|[key info] queryInfo IH]; intros acc Hall;
    cbn [query_loop]; [by eexists |].
  apply Forall_cons in Hall as [Hone Hall]. unfold encodable in Hone.
  cbn [fst snd] in Hone.
  destruct (read key params) as [|value|]; [| | done].
  - rewrite Hone. by apply IH.
  - destruct Hone as (v & -> & [encoded ->]). by apply IH.
Qed.

(** Writing one property leaves what is read under another key. *)
Lemma read_set_property_ne (k key : jsstring) (v : Value) (o : Object) :
  k <> key -> read k (set_property key v o) = read k o.
Proof. intros Hne. unfold read. by rewrite get_set_property, decide_False. Qed.

Lemma data_loop_runs (declared : ParamsDeclare) (o : Object) :
  NoDup declared.*1 -> Forall (accepted o) declared ->
  exists d', data_loop declared (Some o) = Some (d', None).
Proof.
  revert o; induction declared as [|[key info] declared IH]; intros o Hnodup Hall;
    cbn [data_loop]; [by eexists |].
  rewrite fmap_cons in Hnodup. apply NoDup_cons in Hnodup as [Hfresh Hnodup].
  apply Forall_cons in Hall as [Hone Hall]. unfold accepted in Hone.
  cbn [fst snd] in Hone.
  destruct (read key o) as [|value|]; [| | done].
  - rewrite Hone. by apply IH.
  - destruct Hone as [v ->]. apply IH; [exact Hnodup |].
    apply Forall_forall. intros [k i] Hin.
    pose proof (proj1 (Forall_forall _ _) Hall _ Hin) as Hk.
    unfold accepted in *. cbn [fst snd] in *.
    rewrite read_set_property_ne; [exact Hk |].
    intros ->. apply Hfresh. apply list_elem_of_fmap. by exists (key, i).
Qed.

(** X20. The converse of X11: when every declared path parameter is in
    order (an own property its validator passes, or read as [undefined]
    and optional: a key [params] only inherits from [Object.prototype] is
    not in order), every declared query parameter is in order and
    encodable, and [data] fits the declared body (distinct declared
    keys, a [data] object, every declared field in order), [send] does
    reach the network: it fetches, with the method of the builder. *)
Theorem send_fetches_when_in_order {R W : Type} (this : ApiBuilder) (params : Object)
    (data : option Object) (net : Network R W) (w : W) :
  Forall (accepted params) (pathInfo this) ->
  Forall (encodable platform params) (queryInfo this) ->
  fits (dataInfo this) data ->
  exists url init,
    send (R := R) platform this params data = Some (exchange url init)
    /\ init_method init = method this
    /\ fetches (perform net (exchange url init) w).1.1 (url, init).
Proof.
  intros Hpath Hquery Hdata.
  destruct (path_loop_runs _ params (url this) Hpath) as [path_url Hp].
  destruct (query_loop_runs _ params [] Hquery) as [qs Hq].
  assert (exists d', match dataInfo this with
                     | Some declared => data_loop declared data
                     | None => Some (data, None)
                     end = Some (d', None)) as [d' Hd].
  { unfold fits in Hdata. destruct (dataInfo this) as [[|entry declared]|];
      [by eexists | | by eexists].
    destruct Hdata as (Hnodup & o & -> & Hall). by apply data_loop_runs. }
  unfold send, prepare. rewrite Hp, Hq, Hd.
  eexists _, _. split; [reflexivity |]. split; [reflexivity |].
  unfold exchange. simpl.
  destruct (net _ (fetch _ _) w) as [[response | err] w1]; simpl.
  - destruct (400 <=? status response)%Z; simpl.
    + destruct (net _ (json_as_error response) w1) as [[[[?|] ?] | ?] ?]; simpl;
        (eexists; split; [apply list_elem_of_here | reflexivity]).
    + destruct (net _ (json_as_response response) w1) as [[? | ?] ?]; simpl;
        (eexists; split; [apply list_elem_of_here | reflexivity]).
  - eexists; split; [apply list_elem_of_here | reflexivity].
Qed.

(** X21. [path(p)] then [query(q)] and [query(q)] then [path(p)] make the
    same builder: the method, url and body declaration of [this], the two
    declarations given, and no redirect option. *)
Theorem path_and_query_commute (h : Heap) (this : Ref) (b : ApiBuilder)
    (p q : SimpleParamsDeclare) :
  h !! this = Some b ->
  let made := {| method := method b; url := url b; pathInfo := simpleParam p;
                 queryInfo := simpleParam q; dataInfo := dataInfo b;
                 redirectOption := None |} in
  let h1 := (path this p h).2 in
  let h2 := (query this q h).2 in
  (query (length h) q h1).1 = Returned (S (length h))
  /\ (query (length h) q h1).2 !! S (length h) = Some made
  /\ (path (length h) p h2).1 = Returned (S (length h))
  /\ (path (length h) p h2).2 !! S (length h) = Some made.
Proof.
  intros Hthis made h1 h2. subst h1 h2 made.
  unfold path, query, with_this, new_ApiBuilder. rewrite Hthis. cbn [fst snd].
  rewrite !lookup_app_r, !Nat.sub_diag by lia. cbn.
  rewrite !length_app, !Nat.add_1_r.
  repeat split; rewrite lookup_app_r by (rewrite length_app; simpl; lia);
    by rewrite length_app, Nat.add_1_r, Nat.sub_diag.
Qed.

End send_live.

Section reconnect_safety.
Import Js Controller Notions.
Context {W : Type} (env : Environment W).

(** X22. Whatever the environment answers, [Session.reconnect] is only ever
    the third call of its route, on the session [get] returned, with the
    clientId of the path and the socket [ctx.ws()] returned. *)
Theorem reconnect_only_with_path_client (ctx : Context) (w : W) (i : nat) (e : Event)
    (session : SessionRef) (clientId : jsstring) (sock : WebSocket) :
  trace (run env (all_session_sessionId_clientId ctx) w) !! i = Some e ->
  reconnect_call e = Some (session, clientId, sock) ->
  i = 2%nat
  /\ clientId = params_clientId ctx
  /\ exists f : Upgrade,
      ws ctx = Some f
      /\ take 2 (trace (run env (all_session_sessionId_clientId ctx) w))
         = [event (SessionManager_get (params_sessionId ctx)) (Returns (Some session));
            event (ctx_ws f) (Returns sock)].
Proof.
  unfold all_session_sessionId_clientId. cbn.
  destruct (env _ (SessionManager_get _) w) as [[[s|] | ?] w1]; cbn.
  2,3: by destruct i as [|[|]]; intros [= <-].
  destruct (ws ctx) as [f|]; cbn.
  2: by destruct i as [|[|]]; intros [= <-].
  destruct (env _ (ctx_ws f) w1) as [[sock' | ?] w2]; cbn.
  2: by destruct i as [|[|[|]]]; intros [= <-].
  destruct (env _ (Session_reconnect s _ sock') w2) as [[[] | ?] w3]; cbn.
  2: { destruct i as [|[|[|[|]]]]; intros [= <-]; try discriminate.
       intros [= <- <- <-]. repeat split. by exists f. }
  destruct (env _ (log_info _) w3) as [[[] | ?] w4]; cbn.
  all: destruct i as [|[|[|[|[|]]]]]; intros [= <-]; try discriminate.
  all: intros [= <- <- <-]; repeat split; by exists f.
Qed.

End reconnect_safety.

Section more_run.
Import Js Api Request RequestSamples Notions.

(** The title of "room" is set: one path parameter, no query parameter, a
    declared body of one required field, which [new_title] has besides an
    undeclared one. *)
Lemma send_fetches_when_in_order_witness :
  Forall (accepted alice_in_room) (pathInfo set_title)
  /\ Forall (encodable no_numbers alice_in_room) (queryInfo set_title)
  /\ fits (dataInfo set_title) (Some new_title)
  /\ exists url init,
      send (R := jsstring) no_numbers set_title alice_in_room (Some new_title)
      = Some (exchange url init)
      /\ init_method init = POST
      /\ fetches (perform offline (exchange url init) 0%nat).1.1 (url, init).
Proof.
  assert (Forall (accepted alice_in_room) (pathInfo set_title)) as Hpath.
  { apply Forall_cons_2; [by exists (VString (lit "room")) | apply Forall_nil_2]. }
  assert (Forall (encodable no_numbers alice_in_room) (queryInfo set_title)) as Hquery
    by apply Forall_nil_2.
  assert (fits (dataInfo set_title) (Some new_title)) as Hdata.
  { split; [exact (NoDup_singleton (lit "title")) |].
    exists new_title. split; [reflexivity |].
    apply Forall_cons_2; [by exists (VString (lit "Movie night")) | apply Forall_nil_2]. }
  split; [exact Hpath |]. split; [exact Hquery |]. split; [exact Hdata |].
  exact (send_fetches_when_in_order no_numbers set_title alice_in_room (Some new_title)
           offline 0%nat Hpath Hquery Hdata).
Defined.

Lemma path_and_query_commute_witness :
  Samples.builders !! 1%nat
  = Some {| method := POST; url := lit "/session"; pathInfo := []; queryInfo := [];
            dataInfo := Some []; redirectOption := Some follow |}
  /\ (query 2%nat [(lit "verbose", by_name boolean_name)]
        (path 1%nat [(lit "id", by_name string_name)] Samples.builders).2).2 !! 3%nat
     = (path 2%nat [(lit "id", by_name string_name)]
          (query 1%nat [(lit "verbose", by_name boolean_name)] Samples.builders).2).2
       !! 3%nat.
Proof.
  split; [reflexivity |].
  destruct (path_and_query_commute Samples.builders 1%nat _
              [(lit "id", by_name string_name)] [(lit "verbose", by_name boolean_name)]
              eq_refl) as (_ & Hpq & _ & Hqp).
  exact (eq_trans Hpq (eq_sym Hqp)).
Defined.

Lemma reconnect_only_with_path_client_witness :
  Controller.trace
    (Controller.run Samples.outside
       (Controller.all_session_sessionId_clientId (Samples.request "room" "mallory" true))
       0%nat) !! 2%nat
  = Some (Controller.event
            (Controller.Session_reconnect (Controller.session_ref 1) (lit "mallory")
               (Controller.websocket 1))
            (Controller.Throws Controller.NotFound))
  /\ lit "mallory" = Controller.params_clientId (Samples.request "room" "mallory" true).
Proof.
  split; [reflexivity |].
  exact (proj1 (proj2
    (reconnect_only_with_path_client Samples.outside (Samples.request "room" "mallory" true)
       0%nat 2%nat _ (Controller.session_ref 1) (lit "mallory") (Controller.websocket 1)
       eq_refl eq_refl))).
Defined.

End more_run.
